(** * Order lifecycle of the SARASWATHI TIFFINS client (src/App.tsx)

    A shallow embedding of the cart aggregator, the pricing computation, the
    order-submission handler, the realtime status watcher and the admin tap
    counter of [App.tsx], together with the properties the specification
    states about them.

    Modelling conventions.
    - JavaScript numbers that hold currency amounts, quantities, identifiers
      and millisecond timestamps are integers ([Z]); the one non-integer
      intermediate value, [itemTotal * 0.05], is an exact rational ([Q]).
    - JavaScript strings are [string]s: the UTF-8 bytes of their code
      points, a lone surrogate (a UTF-16 code unit D800-DFFF without its
      partner) being written as the three bytes of its own code point, which
      UTF-8 proper excludes.  Concatenation is that of the bytes; it is the
      concatenation of JavaScript wherever the pieces are separated by
      literal text, as they are in every template literal of App.tsx.
    - Arrays and object literals are heap objects reached through references
      ([loc], [obj]).  The state updaters of the cart are also given as
      functions on lists of values ([addToCart], [updateCartQuantity]), and
      the handlers on the heap ([App.addToCart], [App.updateCartQuantity])
      are proved to compute them.
    - Calls into imported modules (Store, Haptics, LocalNotifications, Date,
      Math.random, window.open) are answered by a [Platform] record and are
      recorded, in program order, in the [log] of the [World]. *)

From Stdlib Require Import ZArith QArith Qround String Ascii List Lia.
From stdpp Require Import gmap strings list fin_maps pretty.

Open Scope string_scope.
Open Scope list_scope.
Open Scope Z_scope.

(** ** JavaScript built-ins used by the source *)

(** [Math.round(x)]: the integer nearest to [x], halves going up. *)
Definition Math_round (x : Q) : Z := Qfloor (x + (1 # 2))%Q.

(** [Math.floor(x)]. *)
Definition Math_floor (x : Q) : Z := Qfloor x.

(** [Math.max(a, b)] on integers. *)
Definition Math_max (a b : Z) : Z := Z.max a b.

(** The template-literal rendering [`${n}`] of an integer. *)
Definition String_of_number (n : Z) : string := pretty n.

(** [list.join(sep)]. *)
Definition join (sep : string) (l : list string) : string := String.concat sep l.

(** The line break of a multi-line template literal. *)
Definition newline : string := String (ascii_of_nat 10) EmptyString.

(** Characters [encodeURIComponent] leaves alone:
    [A-Z a-z 0-9 - _ . ! ~ * ' ( )]. *)
Definition uri_unreserved (c : ascii) : bool :=
  let n := nat_of_ascii c in
  ((65 <=? n) && (n <=? 90))%nat || ((97 <=? n) && (n <=? 122))%nat
  || ((48 <=? n) && (n <=? 57))%nat
  || existsb (Nat.eqb n) [45; 95; 46; 33; 126; 42; 39; 40; 41]%nat.

Definition hex_digit (n : nat) : ascii :=
  nth n (list_ascii_of_string "0123456789ABCDEF") "0"%char.

(** Every byte outside the unreserved set becomes [%XX]. *)
Fixpoint percent_encode (s : string) : string :=
  match s with
  | EmptyString => EmptyString
  | String c rest =>
      if uri_unreserved c then String c (percent_encode rest)
      else
        let n := nat_of_ascii c in
        String "%"%char
          (String (hex_digit (n / 16)) (String (hex_digit (n mod 16))
             (percent_encode rest)))
  end.

(** The bytes are well-formed UTF-8 (table 3-7 of the Unicode standard).
    [pending] is [None] between two code points; inside one it holds the
    range of the next byte and the number of bytes that follow it.  The
    lead byte ED admits 80-9F only, which leaves the surrogates out. *)
Fixpoint well_formed_from (pending : option (nat * nat * nat)) (s : string) : bool :=
  match s with
  | EmptyString => match pending with None => true | Some _ => false end
  | String c rest =>
      let b := nat_of_ascii c in
      match pending with
      | None =>
          if (b <? 128)%nat then well_formed_from None rest
          else if ((194 <=? b) && (b <=? 223))%nat then
            well_formed_from (Some (128, 191, 0)%nat) rest
          else if (b =? 224)%nat then well_formed_from (Some (160, 191, 1)%nat) rest
          else if (b =? 237)%nat then well_formed_from (Some (128, 159, 1)%nat) rest
          else if ((225 <=? b) && (b <=? 239))%nat then
            well_formed_from (Some (128, 191, 1)%nat) rest
          else if (b =? 240)%nat then well_formed_from (Some (144, 191, 2)%nat) rest
          else if ((241 <=? b) && (b <=? 243))%nat then
            well_formed_from (Some (128, 191, 2)%nat) rest
          else if (b =? 244)%nat then well_formed_from (Some (128, 143, 2)%nat) rest
          else false
      | Some (lo, hi, more) =>
          if ((lo <=? b) && (b <=? hi))%nat then
            well_formed_from
              (match more with O => None | S n => Some (128, 191, n)%nat end) rest
          else false
      end
  end.

(** [s.isWellFormed()]: [s] has no lone surrogate. *)
Definition String_isWellFormed (s : string) : bool := well_formed_from None s.

(** [encodeURIComponent(s)]: the UTF-8 bytes of [s], percent-encoded outside
    the unreserved set.  On a string with a lone surrogate it throws
    [URIError], which is [None] here. *)
Definition encodeURIComponent (s : string) : option string :=
  if String_isWellFormed s then Some (percent_encode s) else None.

(** ** Data model (the imports of line 13) *)

(** Modelled from the spec: the interface [MenuItem] of [./types], which is
    not under src/.  Section 3 of the specification lists an identity [id], a
    [name] and an integer [price]; these are also the only fields App.tsx
    reads.  Whatever further fields the interface has travel with the record
    through the spread operator exactly as these three do. *)
Module MenuItem.
Record t : Type := mk { id : string; name : string; price : Z }.
End MenuItem.

(** Modelled from the spec: the interface [CartItem] of [./types]: a
    [MenuItem] together with a [quantity].  [{ ...x, quantity: q }] is
    [CartItem.mk x q], for [x] a menu item or (through the coercion) a cart
    item. *)
Module CartItem.
Record t : Type := mk { menuItem : MenuItem.t; quantity : Z }.
End CartItem.

Coercion CartItem.menuItem : CartItem.t >-> MenuItem.t.

(** Modelled from the spec: the interface [UserDetails] of [./types]
    ([name], [phone], [address]). *)
Module UserDetails.
Record t : Type := mk { name : string; phone : string; address : string }.
End UserDetails.

(** Modelled from the spec: the interface [UserProfile] of [./types]
    ([name], [phone]). *)
Module UserProfile.
Record t : Type := mk { name : string; phone : string }.
End UserProfile.

(** Modelled from the spec: the enum [OrderStatus] of [./types].  The
    specification names its four members; a status is a string at run time
    (it is interpolated into the generic notification body and arrives as
    JSON on the realtime channel). *)
Module OrderStatus.
Definition PENDING : string := "PENDING".
Definition CONFIRMED : string := "CONFIRMED".
Definition DELIVERED : string := "DELIVERED".
Definition CANCELLED : string := "CANCELLED".
End OrderStatus.

(** References to heap objects. *)
Definition loc : Type := positive.

(** Modelled from the spec: the interface [Order] of [./types], with the
    seven fields the object literal of lines 203-211 sets.  [items] holds a
    reference to an array, as it does in JavaScript. *)
Module Order.
Record t : Type := mk {
  id : string;
  items : loc;
  totalAmount : Z;
  userDetails : UserDetails.t;
  status : string;
  timestamp : Z;
  paymentId : string
}.
End Order.

(** A row of the [orders] table as the realtime channel delivers it
    ([payload.new as Order], [payload.old as Order], lines 53-54).  The row is
    JSON produced by the backend: the callback guards against a missing
    [userDetails] (line 58) and reads nothing but [userDetails.phone] and
    [status]. *)
Module Row.
Record t : Type := mk { userDetails : option UserDetails.t; status : string }.
End Row.

(** [NotificationType] of [@capacitor/haptics]. *)
Inductive NotificationType : Type := Success | Warning | Error.

(** One entry of the [notifications] array handed to
    [LocalNotifications.schedule]: [title], [body], [id] and [schedule.at]
    (milliseconds since the epoch).  The remaining properties of lines
    100-103 are constants ([undefined], [""], [null]). *)
Module Notification.
Record t : Type := mk { title : string; body : string; id : Z; at_ : Z }.
End Notification.

(** The values of the [view] state variable (line 20). *)
Inductive View : Type :=
  LOGIN | HOME | SUCCESS | ADMIN_DASHBOARD | CART | CHECKOUT | MY_ORDERS.

(** ** Cart aggregator on values (lines 173-192) *)

(** The callback [i => i.id === item.id]. *)
Definition same_id (itemId : string) (i : CartItem.t) : bool :=
  String.eqb (MenuItem.id i) itemId.

(** The state updater of [addToCart] (lines 174-180). *)
Definition addToCart (item : MenuItem.t) (prev : list CartItem.t) : list CartItem.t :=
  let existing := List.find (same_id (MenuItem.id item)) prev in
  match existing with
  | Some _ =>
      List.map (fun i => if same_id (MenuItem.id item) i
                         then CartItem.mk i (CartItem.quantity i + 1)
                         else i) prev
  | None => prev ++ [CartItem.mk item 1]
  end.

(** The state updater of [updateCartQuantity] (lines 184-191). *)
Definition updateCartQuantity (itemId : string) (delta : Z) (prev : list CartItem.t)
  : list CartItem.t :=
  List.filter (fun item => 0 <? CartItem.quantity item)
    (List.map (fun item => if same_id itemId item
                           then CartItem.mk item (Math_max 0 (CartItem.quantity item + delta))
                           else item) prev).

(** ** Heap, platform and the monad of handlers *)

(** Heap objects: arrays of cart items (their elements are references),
    cart-item objects and order objects. *)
Inductive obj : Type :=
| Arr (elems : list loc)
| Item (c : CartItem.t)
| Ord (o : Order.t).

(** What a call into an imported module does: it returns, or it throws.
    For an awaited call, returning is the promise resolving and throwing is
    the promise rejecting; for a call that is not awaited (the two [Store]
    calls of lines 213-214), a promise that rejects later counts as
    returning. *)
Inductive outcome (A : Type) : Type :=
| Returns (a : A)
| Throws.
Arguments Returns {A} a.
Arguments Throws {A}.

(** The collaborators of App.tsx during the run of one handler.  None of
    them is under src/; each is an arbitrary answer.  [Date_now] is the value
    of [Date.now()] and [Math_random] the value of [Math.random()].  The
    collaborators are taken not to write to the objects they are handed. *)
Record Platform : Type := {
  Store_getDeliveryFee : outcome Z;
  Store_generateOrderId : outcome string;
  Store_saveOrder : outcome unit;
  Store_saveLastOrder : outcome unit;
  Haptics_notification : outcome unit;
  LocalNotifications_schedule : outcome unit;
  window_open : outcome unit;
  Date_now : Z;
  Math_random : Q
}.

(** Calls that leave the component, and the two state setters, in the order
    in which they are made. *)
Inductive Event : Type :=
| EvGetDeliveryFee
| EvGenerateOrderId
| EvSaveOrder (order : loc)
| EvSaveLastOrder (items : loc)
| EvHaptics (type : NotificationType)
| EvSchedule (notifications : list Notification.t)
| EvSetCart (cart : loc)
| EvSetView (view : View)
| EvWindowOpen (url target : string).

(** The heap, the state variables [cart] and [view] of the component
    (lines 19-20) and the log of events. *)
Record World : Type := {
  heap : gmap loc obj;
  cart : loc;
  view : View;
  log : list Event
}.

(** How a handler ends: normally, with an exception, or [Stuck] on a
    reference that holds no object of the expected kind (which the type
    checker of the source excludes; see [wf]). *)
Inductive result (A : Type) : Type :=
| Ok (a : A)
| Exn
| Stuck.
Arguments Ok {A} a.
Arguments Exn {A}.
Arguments Stuck {A}.

Definition M (A : Type) : Type := Platform -> World -> result A * World.

Definition ret {A} (a : A) : M A := fun _ w => (Ok a, w).

Definition bind {A B} (m : M A) (k : A -> M B) : M B :=
  fun P w =>
    match m P w with
    | (Ok a, w') => k a P w'
    | (Exn, w') => (Exn, w')
    | (Stuck, w') => (Stuck, w')
    end.

Notation "x <- m ;; k" := (bind m (fun x => k))
  (at level 100, m at next level, right associativity).
Notation "m ;; k" := (bind m (fun _ => k))
  (at level 100, right associativity).

Definition stuck {A} : M A := fun _ w => (Stuck, w).

(** [try { m } catch (e) {}]. *)
Definition try_catch (m : M unit) : M unit :=
  fun P w =>
    match m P w with
    | (Exn, w') => (Ok tt, w')
    | other => other
    end.

Definition emit (e : Event) : M unit :=
  fun _ w => (Ok tt, {| heap := heap w; cart := cart w; view := view w;
                        log := log w ++ [e] |}).

(** A call into a collaborator: logged, then answered by the platform. *)
Definition call {A} (e : Event) (answer : Platform -> outcome A) : M A :=
  emit e;;
  fun P w => match answer P with
             | Returns a => (Ok a, w)
             | Throws => (Exn, w)
             end.

Definition ask {A} (field : Platform -> A) : M A := fun P w => (Ok (field P), w).

(** The value of a built-in that can throw; [None] is its exception. *)
Definition builtin {A} (r : option A) : M A :=
  fun _ w => match r with Some a => (Ok a, w) | None => (Exn, w) end.

(** An object or array literal: a new object at an unused reference. *)
Definition alloc (o : obj) : M loc :=
  fun _ w =>
    let l := fresh (dom (heap w)) in
    (Ok l, {| heap := <[l := o]> (heap w); cart := cart w; view := view w;
              log := log w |}).

Definition deref (l : loc) : M obj :=
  fun _ w => match heap w !! l with
             | Some o => (Ok o, w)
             | None => (Stuck, w)
             end.

(** The elements of an array. *)
Definition elements (a : loc) : M (list loc) :=
  o <- deref a;; match o with Arr els => ret els | _ => stuck end.

(** The fields of a cart-item object. *)
Definition fields (i : loc) : M CartItem.t :=
  o <- deref i;; match o with Item c => ret c | _ => stuck end.

(** The fields of an order object. *)
Definition order_fields (o : loc) : M Order.t :=
  v <- deref o;; match v with Ord x => ret x | _ => stuck end.

(** The current value of the state variable [cart]. *)
Definition get_cart : M loc := fun _ w => (Ok (cart w), w).

(** [setCart(value)]. *)
Definition setCart (value : loc) : M unit :=
  emit (EvSetCart value);;
  fun _ w => (Ok tt, {| heap := heap w; cart := value; view := view w; log := log w |}).

(** [setCart(prev => ...)]. *)
Definition setCart_with (updater : loc -> M loc) : M unit :=
  prev <- get_cart;; next <- updater prev;; setCart next.

(** [setView(value)]. *)
Definition setView (value : View) : M unit :=
  emit (EvSetView value);;
  fun _ w => (Ok tt, {| heap := heap w; cart := cart w; view := value; log := log w |}).

(** *** Array methods *)

Fixpoint mapM_ {A B} (f : A -> M B) (l : list A) : M (list B) :=
  match l with
  | [] => ret []
  | x :: rest => y <- f x;; ys <- mapM_ f rest;; ret (y :: ys)
  end.

Fixpoint find_loop (p : CartItem.t -> bool) (els : list loc) : M (option loc) :=
  match els with
  | [] => ret None
  | e :: rest => c <- fields e;; if p c then ret (Some e) else find_loop p rest
  end.

(** [a.find(p)]: the first element satisfying [p], or [undefined]. *)
Definition Array_find (p : CartItem.t -> bool) (a : loc) : M (option loc) :=
  els <- elements a;; find_loop p els.

(** [a.map(f)]: a new array of the results of [f]. *)
Definition Array_map (f : loc -> M loc) (a : loc) : M loc :=
  els <- elements a;; els' <- mapM_ f els;; alloc (Arr els').

Fixpoint filter_loop (p : CartItem.t -> bool) (els : list loc) : M (list loc) :=
  match els with
  | [] => ret []
  | e :: rest =>
      c <- fields e;; kept <- filter_loop p rest;;
      ret (if p c then e :: kept else kept)
  end.

(** [a.filter(p)]: a new array of the elements satisfying [p]. *)
Definition Array_filter (p : CartItem.t -> bool) (a : loc) : M loc :=
  els <- elements a;; kept <- filter_loop p els;; alloc (Arr kept).

(** [[...a, x]]. *)
Definition Array_spread_with (a : loc) (x : loc) : M loc :=
  els <- elements a;; alloc (Arr (els ++ [x])).

(** [a.reduce(f, init)] for a callback that reads the fields of its element. *)
Definition Array_reduce {A} (f : A -> CartItem.t -> A) (a : loc) (init : A) : M A :=
  els <- elements a;; cs <- mapM_ fields els;; ret (fold_left f cs init).

(** [a.map(f)] for a callback that renders its element as a string. *)
Definition Array_map_string (f : CartItem.t -> string) (a : loc) : M (list string) :=
  els <- elements a;; cs <- mapM_ fields els;; ret (List.map f cs).

(** A promise that is started and not awaited (lines 62 and 109): its
    rejection never reaches the caller. *)
Definition not_awaited (m : M unit) : M unit := try_catch m.

(** ** The component (lines 17-390) *)

Module App.

(** [addToCart], lines 173-181. *)
Definition addToCart (item : MenuItem.t) : M unit :=
  setCart_with (fun prev =>
    existing <- Array_find (same_id (MenuItem.id item)) prev;;
    match existing with
    | Some _ =>
        Array_map (fun i =>
          c <- fields i;;
          if same_id (MenuItem.id item) c
          then alloc (Item (CartItem.mk c (CartItem.quantity c + 1)))
          else ret i) prev
    | None =>
        x <- alloc (Item (CartItem.mk item 1));;
        Array_spread_with prev x
    end).

(** [updateCartQuantity], lines 183-192. *)
Definition updateCartQuantity (itemId : string) (delta : Z) : M unit :=
  setCart_with (fun prev =>
    mapped <- Array_map (fun item =>
      c <- fields item;;
      if same_id itemId c
      then alloc (Item (CartItem.mk c (Math_max 0 (CartItem.quantity c + delta))))
      else ret item) prev;;
    Array_filter (fun item => 0 <? CartItem.quantity item) mapped).

(** The notification of lines 224-229. *)
Definition miss_you (now : Z) : Notification.t :=
  {| Notification.title := "Miss you! 🥺";
     Notification.body := "It's been 2 days... Fresh tiffins are ready!";
     Notification.id := 999;
     Notification.at_ := now + 48 * 60 * 60 * 1000 |}.

(** The template literal of lines 237-244. *)
Definition order_message (orderId : string) (details : UserDetails.t)
    (lines : list string) (finalTotal : Z) (paymentId : string) : string :=
  String.concat ""
    [ "*New Order: "; orderId; "*"; newline;
      "Name: "; UserDetails.name details; newline;
      "Phone: "; UserDetails.phone details; newline;
      "Address: "; UserDetails.address details; newline;
      "Items:"; newline;
      join newline lines; newline;
      "Total: ₹"; String_of_number finalTotal; newline;
      "Payment ID: "; paymentId ].

(** [handlePlaceOrder], lines 194-248. *)
Definition handlePlaceOrder (details : UserDetails.t) (paymentId : string) : M unit :=
  cart <- get_cart;;
  total <- Array_reduce
             (fun acc (i : CartItem.t) => acc + MenuItem.price i * CartItem.quantity i)
             cart 0;;
  let itemTotal := total in
  let platformFee := 5 in
  deliveryFee <- call EvGetDeliveryFee Store_getDeliveryFee;;
  let gst := Math_round (inject_Z itemTotal * (5 # 100))%Q in
  let finalTotal := itemTotal + platformFee + deliveryFee + gst in
  orderId <- call EvGenerateOrderId Store_generateOrderId;;
  now <- ask Date_now;;
  newOrder <- alloc (Ord {| Order.id := orderId;
                            Order.items := cart;
                            Order.totalAmount := finalTotal;
                            Order.userDetails := details;
                            Order.status := OrderStatus.PENDING;
                            Order.timestamp := now;
                            Order.paymentId := paymentId |});;
  call (EvSaveOrder newOrder) Store_saveOrder;;
  call (EvSaveLastOrder cart) Store_saveLastOrder;;
  try_catch (call (EvHaptics Success) Haptics_notification);;
  try_catch (now <- ask Date_now;;
             call (EvSchedule [miss_you now]) LocalNotifications_schedule);;
  empty <- alloc (Arr []);;
  setCart empty;;
  setView SUCCESS;;
  o <- order_fields newOrder;;
  lines <- Array_map_string
             (fun i : CartItem.t =>
                String.concat "" ["- "; String_of_number (CartItem.quantity i);
                                  " x "; MenuItem.name i])
             cart;;
  let message := order_message (Order.id o) details lines finalTotal paymentId in
  encoded <- builtin (encodeURIComponent message);;
  let whatsappUrl := String.append "https://wa.me/919959730602?text=" encoded in
  call (EvWindowOpen whatsappUrl "_blank") window_open.

(** The [CHECKOUT] branch of the view routing, lines 312-320: the value
    handed to [Checkout] as [total]. *)
Definition render_CHECKOUT : M Z :=
  cart <- get_cart;;
  total <- Array_reduce
             (fun acc (i : CartItem.t) => acc + MenuItem.price i * CartItem.quantity i)
             cart 0;;
  let itemTotal := total in
  let platformFee := 5 in
  deliveryFee <- call EvGetDeliveryFee Store_getDeliveryFee;;
  let gst := Math_round (inject_Z itemTotal * (5 # 100))%Q in
  let finalTotal := itemTotal + platformFee + deliveryFee + gst in
  ret finalTotal.

(** The [switch] of lines 75-91. *)
Definition status_text (status : string) : string * string :=
  let title := "Order Update" in
  let body := String.append "Your order status has changed to " status in
  if String.eqb status OrderStatus.CONFIRMED then
    ("Order Confirmed! 🍳", "We've received your order and are preparing it.")
  else if String.eqb status OrderStatus.DELIVERED then
    ("Order Delivered! 😋", "Your tiffins have been delivered. Enjoy your meal!")
  else if String.eqb status OrderStatus.CANCELLED then
    ("Order Cancelled ❌",
     "Your order was cancelled. Please contact support if this was a mistake.")
  else (title, body).

(** [triggerStatusNotification], lines 74-110. *)
Definition triggerStatusNotification (order : Row.t) : M unit :=
  let '(title, body) := status_text (Row.status order) in
  random <- ask Math_random;;
  now <- ask Date_now;;
  call (EvSchedule [ {| Notification.title := title;
                        Notification.body := body;
                        Notification.id := Math_floor (random * inject_Z 100000)%Q;
                        Notification.at_ := now + 100 |} ])
       LocalNotifications_schedule;;
  not_awaited (call (EvHaptics Success) Haptics_notification).

(** The callback of the [orders] subscription, lines 52-65. *)
Definition on_orders_UPDATE (currentUser : UserProfile.t) (newOrder oldOrder : Row.t)
  : M unit :=
  match Row.userDetails newOrder with
  | Some userDetails =>
      if String.eqb (UserDetails.phone userDetails) (UserProfile.phone currentUser) then
        if negb (String.eqb (Row.status newOrder) (Row.status oldOrder)) then
          not_awaited (triggerStatusNotification newOrder)
        else ret tt
      else ret tt
  | None => ret tt
  end.

(** The effect of lines 43-72 seen from the channel: with no current user
    nothing is subscribed and an update event reaches no callback. *)
Definition realtime_event (currentUser : option UserProfile.t) (newOrder oldOrder : Row.t)
  : M unit :=
  match currentUser with
  | None => ret tt
  | Some user => on_orders_UPDATE user newOrder oldOrder
  end.

End App.

(** ** Secret admin access: the tap counter (lines 22-26 and 137-154) *)

Module TapCounter.

(** [logoClickCount] and [showPinModal] are the state variables of lines 23
    and 26.  [timer] is the pending timeout of line 141, as the milliseconds
    left before it fires.  [rendered] is the value of [logoClickCount] the
    effect of lines 138-150 last ran with (its dependency).  [prompts] counts
    the calls [setShowPinModal(true)]. *)
Record t : Type := mk {
  logoClickCount : Z;
  showPinModal : bool;
  timer : option Z;
  rendered : Z;
  prompts : nat
}.

(** The component after mounting: the effect has run once with count 0. *)
Definition initial : t :=
  {| logoClickCount := 0; showPinModal := false; timer := None;
     rendered := 0; prompts := 0 |}.

(** One run of the effect of lines 138-150 for the rendered count [n]: the
    clean-up of the previous run ([clearTimeout], line 149), then the body. *)
Definition useEffect (g : t) : t :=
  let n := logoClickCount g in
  let timer' := if 0 <? n then Some 2000 else None in
  if 5 <=? n then
    {| logoClickCount := 0; showPinModal := true; timer := timer';
       rendered := n; prompts := S (prompts g) |}
  else
    {| logoClickCount := n; showPinModal := showPinModal g; timer := timer';
       rendered := n; prompts := prompts g |}.

(** React re-renders and re-runs the effect as long as [logoClickCount]
    differs from the value the effect last ran with. *)
Fixpoint flush (fuel : nat) (g : t) : t :=
  match fuel with
  | O => g
  | S fuel' =>
      if logoClickCount g =? rendered g then g else flush fuel' (useEffect g)
  end.

(** Two rounds always suffice, see [flush_settles]. *)
Definition commit (g : t) : t := flush 2 g.

(** [setLogoClickCount(value)] outside of the effect. *)
Definition setLogoClickCount (value : Z) (g : t) : t :=
  commit {| logoClickCount := value; showPinModal := showPinModal g;
            timer := timer g; rendered := rendered g; prompts := prompts g |}.

(** [handleLogoClick], lines 152-154. *)
Definition handleLogoClick (g : t) : t :=
  setLogoClickCount (logoClickCount g + 1) g.

(** The callback of the timeout, line 141; the timeout is spent. *)
Definition timeout_fires (g : t) : t :=
  setLogoClickCount 0
    {| logoClickCount := logoClickCount g; showPinModal := showPinModal g;
       timer := None; rendered := rendered g; prompts := prompts g |}.

(** [ms] milliseconds pass without a tap. *)
Definition elapse (ms : Z) (g : t) : t :=
  match timer g with
  | Some remaining =>
      if ms <? remaining then
        {| logoClickCount := logoClickCount g; showPinModal := showPinModal g;
           timer := Some (remaining - ms); rendered := rendered g; prompts := prompts g |}
      else timeout_fires g
  | None => g
  end.

(** [setShowPinModal(false)]: the Cancel button, the back button and a
    successful PIN entry (lines 121, 253, 383). *)
Definition closePinModal (g : t) : t :=
  {| logoClickCount := logoClickCount g; showPinModal := false;
     timer := timer g; rendered := rendered g; prompts := prompts g |}.

(** What can happen to the counter. *)
Inductive input : Type :=
| Tap
| Wait (ms : Z)
| Close.

Definition step (g : t) (i : input) : t :=
  match i with
  | Tap => handleLogoClick g
  | Wait ms => elapse ms g
  | Close => closePinModal g
  end.

Definition run (inputs : list input) (g : t) : t := fold_left step inputs g.

(** A burst of taps: before each tap, [gap] milliseconds have passed since
    the previous one. *)
Definition burst (gaps : list Z) : list input :=
  List.flat_map (fun gap => [Wait gap; Tap]) gaps.

(** Negative waits do not exist. *)
Definition valid (i : input) : Prop :=
  match i with
  | Wait ms => 0 <= ms
  | _ => True
  end.

(** The resting states of the counter: the effect has caught up with the
    count, the count is below the threshold, and a timeout is pending exactly
    when the count is not 0. *)
Definition resting (g : t) : Prop :=
  rendered g = logoClickCount g
  /\ 0 <= logoClickCount g <= 4
  /\ match timer g with
     | None => logoClickCount g = 0
     | Some remaining => 0 < logoClickCount g /\ 0 < remaining <= 2000
     end.

End TapCounter.

(** ** Notions used by the statements *)

(** The cart item a reference holds. *)
Definition item_at (h : gmap loc obj) (l : loc) : option CartItem.t :=
  match h !! l with
  | Some (Item c) => Some c
  | _ => None
  end.

(** The cart an array reference denotes: the items its elements hold, in
    order. *)
Definition cart_contents (h : gmap loc obj) (a : loc) : option (list CartItem.t) :=
  match h !! a with
  | Some (Arr els) => mapM (item_at h) els
  | _ => None
  end.

(** The references [els] hold the items [cs], one by one. *)
Definition hold (h : gmap loc obj) (els : list loc) (cs : list CartItem.t) : Prop :=
  Forall2 (fun e c => item_at h e = Some c) els cs.

(** The order a reference denotes, with the cart its [items] denote. *)
Definition order_at (h : gmap loc obj) (o : loc) : option (Order.t * list CartItem.t) :=
  match h !! o with
  | Some (Ord x) =>
      match cart_contents h (Order.items x) with
      | Some c => Some (x, c)
      | None => None
      end
  | _ => None
  end.

(** A computation that writes to no existing object: whatever it does, the
    objects of the heap it started in are still there, as they were. *)
Definition allocates_only {A} (m : M A) : Prop :=
  forall P w r w', m P w = (r, w') -> heap w ⊆ heap w'.

(** A computation that leaves the world as it found it. *)
Definition reads_only {A} (m : M A) : Prop :=
  forall P w r w', m P w = (r, w') -> w' = w.

(** [w] with one more event in its log. *)
Definition logged (e : Event) (w : World) : World :=
  {| heap := heap w; cart := cart w; view := view w; log := log w ++ [e] |}.

(** [w'] is [w] with more objects in the heap. *)
Definition grown (w w' : World) : Prop :=
  heap w ⊆ heap w' /\ cart w' = cart w /\ view w' = view w /\ log w' = log w.

(** The callback [g] of an [Array.map] returns, for an element that holds
    [c], a reference that holds [f c], and adds at most new objects. *)
Definition computes (g : loc -> M loc) (f : CartItem.t -> CartItem.t) (P : Platform)
  : Prop :=
  forall w e c, item_at (heap w) e = Some c ->
    exists e' w', g e P w = (Ok e', w') /\ grown w w' /\ item_at (heap w') e' = Some (f c).

(** Well-formed worlds: the state variable [cart] holds a [CartItem[]]. *)
Definition wf (w : World) : Prop := is_Some (cart_contents (heap w) (cart w)).

(** The sum of [price * quantity] over the entries of a cart. *)
Fixpoint sum_price_quantity (c : list CartItem.t) : Z :=
  match c with
  | [] => 0
  | i :: rest => MenuItem.price i * CartItem.quantity i + sum_price_quantity rest
  end.

(** The entry [addToCart] leaves in the place of [i]. *)
Definition bumped (itemId : string) (i : CartItem.t) : CartItem.t :=
  if String.eqb (MenuItem.id i) itemId then CartItem.mk i (CartItem.quantity i + 1) else i.

(** The entries [updateCartQuantity] leaves in the place of [i]: none when
    the new quantity is 0. *)
Definition adjusted (itemId : string) (delta : Z) (i : CartItem.t) : list CartItem.t :=
  if String.eqb (MenuItem.id i) itemId then
    if Z.max 0 (CartItem.quantity i + delta) =? 0 then []
    else [CartItem.mk i (Z.max 0 (CartItem.quantity i + delta))]
  else [i].

(** The entries of a cart whose id is not [itemId]. *)
Definition others (itemId : string) (c : list CartItem.t) : list CartItem.t :=
  List.filter (fun i : CartItem.t => negb (String.eqb (MenuItem.id i) itemId)) c.

(** All quantities of a cart are positive. *)
Definition positive_quantities (c : list CartItem.t) : Prop :=
  Forall (fun i => 0 < CartItem.quantity i) c.

(** What can happen to the cart after an order was placed. *)
Inductive cart_op : Type :=
| Add (item : MenuItem.t)
| Update (itemId : string) (delta : Z)
| Clear.

Definition run_op (op : cart_op) : M unit :=
  match op with
  | Add item => App.addToCart item
  | Update itemId delta => App.updateCartQuantity itemId delta
  | Clear => empty <- alloc (Arr []);; setCart empty
  end.

Fixpoint run_ops (ops : list cart_op) : M unit :=
  match ops with
  | [] => ret tt
  | op :: rest => run_op op;; run_ops rest
  end.

(** The events a handler added to the log. *)
Definition new_events (before after : World) : list Event :=
  drop (length (log before)) (log after).

(** The notifications handed to the scheduler by a list of events. *)
Definition scheduled (evs : list Event) : list Notification.t :=
  List.flat_map (fun e => match e with EvSchedule ns => ns | _ => [] end) evs.

(** The events of a complete run of [handlePlaceOrder]. *)
Definition placeOrder_events (P : Platform) (order items empty : loc) (url : string)
  : list Event :=
  [ EvGetDeliveryFee; EvGenerateOrderId; EvSaveOrder order; EvSaveLastOrder items;
    EvHaptics Success; EvSchedule [App.miss_you (Date_now P)];
    EvSetCart empty; EvSetView SUCCESS; EvWindowOpen url "_blank" ].

(** [finalTotal] as the specification gives it, for a cart and a delivery
    fee. *)
Definition finalTotal_of (c : list CartItem.t) (deliveryFee : Z) : Z :=
  let itemTotal := sum_price_quantity c in
  itemTotal + 5 + deliveryFee + Math_round (inject_Z itemTotal * (5 # 100))%Q.

(** The order object [handlePlaceOrder] builds (lines 203-211) from the
    cart reference [items] that denotes [c]. *)
Definition order_of (P : Platform) (orderId : string) (items : loc)
    (c : list CartItem.t) (deliveryFee : Z) (details : UserDetails.t)
    (paymentId : string) : Order.t :=
  {| Order.id := orderId;
     Order.items := items;
     Order.totalAmount := finalTotal_of c deliveryFee;
     Order.userDetails := details;
     Order.status := OrderStatus.PENDING;
     Order.timestamp := Date_now P;
     Order.paymentId := paymentId |}.

(** The event clears the cart or shows the success view. *)
Definition clears_or_succeeds (e : Event) : Prop :=
  (exists a, e = EvSetCart a) \/ e = EvSetView SUCCESS.

(** In a list of events, both persistence calls come strictly before every
    clearing of the cart and every switch to the success view. *)
Definition persisted_first (evs : list Event) : Prop :=
  forall (k : nat) (e : Event),
    evs !! k = Some e -> clears_or_succeeds e ->
    exists (i j : nat) (o c : loc),
      (i < k)%nat /\ (j < k)%nat /\
      evs !! i = Some (EvSaveOrder o) /\ evs !! j = Some (EvSaveLastOrder c).

(** The handlers of a session. *)
Inductive handler : Type :=
| AddToCart (item : MenuItem.t)
| UpdateCartQuantity (itemId : string) (delta : Z)
| PlaceOrder (details : UserDetails.t) (paymentId : string)
| OrdersUpdate (currentUser : option UserProfile.t) (newOrder oldOrder : Row.t).

Definition run_handler (h : handler) : M unit :=
  match h with
  | AddToCart item => App.addToCart item
  | UpdateCartQuantity itemId delta => App.updateCartQuantity itemId delta
  | PlaceOrder details paymentId => App.handlePlaceOrder details paymentId
  | OrdersUpdate user newOrder oldOrder => App.realtime_event user newOrder oldOrder
  end.

(** A session: handlers run one after the other, each against the platform
    of its moment.  The result lists every notification handed to the
    scheduler together with the time ([Date.now()]) at which it was. *)
Fixpoint history (session : list (Platform * handler)) (w : World)
  : list (Z * Notification.t) :=
  match session with
  | [] => []
  | (P, h) :: rest =>
      let w' := snd (run_handler h P w) in
      List.map (fun n => (Date_now P, n)) (scheduled (new_events w w'))
        ++ history rest w'
  end.

(** A notification is pending until its [schedule.at]. *)
Definition pending (now : Z) (n : Notification.t) : bool := now <? Notification.at_ n.

(** Every notification of the history has, when it is scheduled, an id that
    no earlier, still pending notification has. *)
Fixpoint unique_when_scheduled (earlier : list Notification.t)
    (hist : list (Z * Notification.t)) : bool :=
  match hist with
  | [] => true
  | (now, n) :: rest =>
      forallb (fun m => negb (pending now m && (Notification.id m =? Notification.id n)))
              earlier
      && unique_when_scheduled (earlier ++ [n]) rest
  end.

(** The notification [triggerStatusNotification] schedules for a status
    (lines 95-104). *)
Definition status_notification (P : Platform) (status : string) : Notification.t :=
  {| Notification.title := fst (App.status_text status);
     Notification.body := snd (App.status_text status);
     Notification.id := Math_floor (Math_random P * inject_Z 100000)%Q;
     Notification.at_ := Date_now P + 100 |}.

(** The update event is for an order of the current user: the new row
    embeds user details whose phone is the phone of the user. *)
Definition own_order (user : UserProfile.t) (newOrder : Row.t) : Prop :=
  exists details, Row.userDetails newOrder = Some details
                  /\ UserDetails.phone details = UserProfile.phone user.

(** A platform all of whose collaborators return, at time [now]. *)
Definition obliging (now : Z) : Platform :=
  {| Store_getDeliveryFee := Returns 20;
     Store_generateOrderId := Returns "ORD-1001";
     Store_saveOrder := Returns tt;
     Store_saveLastOrder := Returns tt;
     Haptics_notification := Returns tt;
     LocalNotifications_schedule := Returns tt;
     window_open := Returns tt;
     Date_now := now;
     Math_random := 1 # 3 |}.



(** The events of a run of [handlePlaceOrder] up to the success view. *)
Definition events_to_success (P : Platform) (order items empty : loc) : list Event :=
  [ EvGetDeliveryFee; EvGenerateOrderId; EvSaveOrder order; EvSaveLastOrder items;
    EvHaptics Success; EvSchedule [App.miss_you (Date_now P)];
    EvSetCart empty; EvSetView SUCCESS ].

Definition idli : MenuItem.t :=
  {| MenuItem.id := "A"; MenuItem.name := "Idli"; MenuItem.price := 100 |}.



Definition customer : UserDetails.t :=
  {| UserDetails.name := "Asha"; UserDetails.phone := "9000000001";
     UserDetails.address := "12 Temple Road" |}.

(** The cart of the example of the specification: two idlis, about to be
    checked out. *)
Definition two_idlis : World :=
  {| heap := {[ 1%positive := Arr [2%positive];
                2%positive := Item (CartItem.mk idli 2) ]};
     cart := 1%positive; view := CHECKOUT; log := [] |}.

(** A customer who orders twice within the hour. *)
Definition two_orders : list (Platform * handler) :=
  [ (obliging 0, AddToCart idli);
    (obliging 0, PlaceOrder customer "pay_1");
    (obliging 3600000, AddToCart idli);
    (obliging 3600000, PlaceOrder customer "pay_2") ].

(** The world of a freshly mounted component: an empty cart, the [LOGIN]
    view of line 20. *)
Definition initial_world : World :=
  {| heap := {[ 1%positive := Arr [] ]}; cart := 1%positive; view := LOGIN; log := [] |}.

(** ** Further code of the component *)

(** [cartItemCount], line 261:
    [cart.reduce((acc, i) => acc + i.quantity, 0)]. *)
Definition cartItemCount (cart : list CartItem.t) : Z :=
  fold_left (fun acc (i : CartItem.t) => acc + CartItem.quantity i) cart 0.

(** The badge of the cart icon is rendered when [cartItemCount > 0]
    (line 357). *)
Definition badge_shown (cart : list CartItem.t) : bool := 0 <? cartItemCount cart.

(** [itemTotal] of lines 195-196 and 313-314 on the items of a cart. *)
Definition itemTotal (cart : list CartItem.t) : Z :=
  fold_left (fun acc (i : CartItem.t) => acc + MenuItem.price i * CartItem.quantity i) cart 0.

(** The sum of the quantities of a cart. *)
Fixpoint sum_quantity (c : list CartItem.t) : Z :=
  match c with
  | [] => 0
  | i :: rest => CartItem.quantity i + sum_quantity rest
  end.

(** The ids of the entries of a cart, in order. *)
Definition ids (c : list CartItem.t) : list string :=
  List.map (fun i : CartItem.t => MenuItem.id i) c.

(** The state updater of a cart operation, on values; clearing is
    [setCart([])] of line 233. *)
Definition apply_op (op : cart_op) (c : list CartItem.t) : list CartItem.t :=
  match op with
  | Add item => addToCart item c
  | Update itemId delta => updateCartQuantity itemId delta c
  | Clear => []
  end.

Definition apply_ops (ops : list cart_op) (c : list CartItem.t) : list CartItem.t :=
  fold_left (fun acc op => apply_op op acc) ops c.

(** The callback of line 242: one line of the message per cart entry. *)
Definition message_line (i : CartItem.t) : string :=
  String.concat "" ["- "; String_of_number (CartItem.quantity i); " x "; MenuItem.name i].

(** [message], lines 237-244, of an order for a cart that denotes [c]. *)
Definition handoff_message (orderId : string) (details : UserDetails.t)
    (c : list CartItem.t) (deliveryFee : Z) (paymentId : string) : string :=
  App.order_message orderId details (List.map message_line c)
    (finalTotal_of c deliveryFee) paymentId.

(** [whatsappUrl], line 246, for the encoded message. *)
Definition whatsappUrl (encoded : string) : string :=
  String.append "https://wa.me/919959730602?text=" encoded.


(** The tap counter right after a tap that left the count at [k]: the effect
    has run for [k], and the timeout, if there is one, has its full 2
    seconds to go. *)
Definition just_tapped (k : Z) (g : TapCounter.t) : Prop :=
  TapCounter.logoClickCount g = k /\ TapCounter.rendered g = k
  /\ TapCounter.timer g = (if k =? 0 then None else Some 2000).

(** ** The component as a whole (lines 17-390) *)

(** Calls of App.tsx that the handlers above do not make. *)
Inductive Call : Type :=
| CallGetCurrentUser
| CallGetMenu
| CallRequestPermissions
| CallSaveCurrentUser (user : UserProfile.t)
| CallLogoutUser
| CallGetAdminPin
| CallAlert (message : string)
| CallExitApp
| CallHistoryBack
| CallSubscribe (user : UserProfile.t)
| CallRemoveChannel (user : UserProfile.t).

(** The answers of the store to those calls. *)
Record Backend : Type := {
  Store_getCurrentUser : outcome (option UserProfile.t);
  Store_getMenu : outcome (list MenuItem.t);
  Store_saveCurrentUser : outcome unit;
  Store_logoutUser : outcome unit;
  Store_getAdminPin : outcome string
}.

#[global] Instance View_eq_dec : EqDecision View.
Proof. solve_decision. Defined.

Module Component.

(** The state of the component.  [world] holds the state variables [cart]
    and [view] (with heap and log), [tap] holds [logoClickCount] and
    [showPinModal] (with the timeout); [menu], [currentUser] and [pinInput]
    are the state variables of lines 18, 21 and 22.  [subscription] is the
    channel the effect of lines 43-72 has open, as the user its callback
    closes over; [stale] says that [currentUser] was set since that effect
    last ran.  [calls] lists the calls made, in order. *)
Record t : Type := mk {
  world : World;
  tap : TapCounter.t;
  menu : list MenuItem.t;
  currentUser : option UserProfile.t;
  pinInput : string;
  subscription : option UserProfile.t;
  stale : bool;
  calls : list Call
}.

Definition with_world (w : World) (c : t) : t :=
  {| world := w; tap := tap c; menu := menu c; currentUser := currentUser c;
     pinInput := pinInput c; subscription := subscription c; stale := stale c;
     calls := calls c |}.

Definition with_tap (g : TapCounter.t) (c : t) : t :=
  {| world := world c; tap := g; menu := menu c; currentUser := currentUser c;
     pinInput := pinInput c; subscription := subscription c; stale := stale c;
     calls := calls c |}.

(** A call is made. *)
Definition called (x : Call) (c : t) : t :=
  {| world := world c; tap := tap c; menu := menu c; currentUser := currentUser c;
     pinInput := pinInput c; subscription := subscription c; stale := stale c;
     calls := calls c ++ [x] |}.

(** A handler of the monad [M] runs on the world of the component. *)
Definition run_M (m : M unit) (P : Platform) (c : t) : t :=
  with_world (snd (m P (world c))) c.

Definition setMenu (value : list MenuItem.t) (c : t) : t :=
  {| world := world c; tap := tap c; menu := value; currentUser := currentUser c;
     pinInput := pinInput c; subscription := subscription c; stale := stale c;
     calls := calls c |}.

Definition setPinInput (value : string) (c : t) : t :=
  {| world := world c; tap := tap c; menu := menu c; currentUser := currentUser c;
     pinInput := value; subscription := subscription c; stale := stale c;
     calls := calls c |}.

(** [setCurrentUser(value)].  A user object is a new value of the state
    variable; [null] over [null] is none. *)
Definition setCurrentUser (value : option UserProfile.t) (c : t) : t :=
  {| world := world c; tap := tap c; menu := menu c; currentUser := value;
     pinInput := pinInput c; subscription := subscription c;
     stale := match value, currentUser c with
              | None, None => stale c
              | _, _ => true
              end;
     calls := calls c |}.

(** [setShowPinModal(false)]. *)
Definition closeModal (c : t) : t := with_tap (TapCounter.closePinModal (tap c)) c.

(** The component before its first effects: the initial values of lines
    18-26. *)
Definition mounted : t :=
  {| world := initial_world; tap := TapCounter.initial; menu := [];
     currentUser := None; pinInput := ""; subscription := None; stale := false;
     calls := [] |}.

(** The effect of lines 29-40.  A call that throws ends the effect there;
    what React does with the component after that is not modelled. *)
Definition initial_load (P : Platform) (B : Backend) (c : t) : t :=
  let c := called CallGetCurrentUser c in
  match Store_getCurrentUser B with
  | Throws => c
  | Returns savedUser =>
      let c := match savedUser with
               | Some user => run_M (setView HOME) P (setCurrentUser (Some user) c)
               | None => c
               end in
      let c := called CallGetMenu c in
      match Store_getMenu B with
      | Throws => c
      | Returns loaded => called CallRequestPermissions (setMenu loaded c)
      end
  end.

(** The effect of lines 43-72, with dependency [currentUser]: when the
    dependency was set, the clean-up of the previous run removes its channel
    (lines 69-71); then, for a user, a channel is subscribed (lines 47-67),
    and for none the effect returns at line 44. *)
Definition watch_orders (c : t) : t :=
  if stale c then
    let c := match subscription c with
             | Some user => called (CallRemoveChannel user) c
             | None => c
             end in
    let c := match currentUser c with
             | Some user => called (CallSubscribe user) c
             | None => c
             end in
    {| world := world c; tap := tap c; menu := menu c; currentUser := currentUser c;
       pinInput := pinInput c; subscription := currentUser c; stale := false;
       calls := calls c |}
  else c.

(** The listener of the hardware back button, lines 115-130.  The effect
    registers it anew when [view] or [showPinModal] changed (line 135); it is
    taken here to see the current values of both. *)
Definition backButton (canGoBack : bool) (P : Platform) (c : t) : t :=
  let view := view (world c) in
  let showPinModal := TapCounter.showPinModal (tap c) in
  if bool_decide (view = HOME) && negb showPinModal then called CallExitApp c
  else if bool_decide (view = LOGIN) then called CallExitApp c
  else if showPinModal then closeModal c
  else if negb (bool_decide (view = HOME)) then run_M (setView HOME) P c
  else if canGoBack then called CallHistoryBack c
  else c.

(** [handleLoginSuccess], lines 156-160. *)
Definition handleLoginSuccess (user : UserProfile.t) (P : Platform) (B : Backend) (c : t)
  : t :=
  let c := called (CallSaveCurrentUser user) c in
  match Store_saveCurrentUser B with
  | Throws => c
  | Returns _ => run_M (setView HOME) P (setCurrentUser (Some user) c)
  end.

(** [handleLogout], lines 162-166. *)
Definition handleLogout (P : Platform) (B : Backend) (c : t) : t :=
  let c := called CallLogoutUser c in
  match Store_logoutUser B with
  | Throws => c
  | Returns _ => run_M (setView LOGIN) P (setCurrentUser None c)
  end.

(** [refreshMenu], lines 169-171. *)
Definition refreshMenu (newMenu : list MenuItem.t) (c : t) : t := setMenu newMenu c.

(** [handleAdminLogin], lines 250-259. *)
Definition handleAdminLogin (P : Platform) (B : Backend) (c : t) : t :=
  let c := called CallGetAdminPin c in
  match Store_getAdminPin B with
  | Throws => c
  | Returns pin =>
      if String.eqb (pinInput c) pin then
        run_M (setView ADMIN_DASHBOARD) P (setPinInput "" (closeModal c))
      else called (CallAlert "Incorrect PIN") c
  end.

(** What the user, the child components, the clock and the realtime channel
    can do to the component.  The child components are not under src/; they
    are taken to call the callbacks they are handed, with any arguments, and
    to do so while they are rendered. *)
Inductive action : Type :=
| Back (canGoBack : bool)
| TimePasses (ms : Z)
| OrdersUpdate (newOrder oldOrder : Row.t)
| LoginSuccess (user : UserProfile.t)
| Logout
| PlaceAnotherOrder
| AdminLogout
| UpdateMenu (newMenu : list MenuItem.t)
| UpdateQuantity (itemId : string) (delta : Z)
| CartGoBack
| CartCheckout
| CheckoutGoBack
| PlaceOrder (details : UserDetails.t) (paymentId : string)
| MyOrdersGoBack
| OpenMyOrders
| LogoClick
| GoToCart
| AddToCart (item : MenuItem.t)
| PinChange (value : string)
| PinSubmit
| PinCancel.

(** The handler of each action (the props of lines 265-383). *)
Definition handle (a : action) (P : Platform) (B : Backend) (c : t) : t :=
  match a with
  | Back canGoBack => backButton canGoBack P c
  | TimePasses ms => with_tap (TapCounter.elapse ms (tap c)) c
  | OrdersUpdate newOrder oldOrder =>
      run_M (App.realtime_event (subscription c) newOrder oldOrder) P c
  | LoginSuccess user => handleLoginSuccess user P B c
  | Logout => handleLogout P B c
  | PlaceAnotherOrder => run_M (setView HOME) P c
  | AdminLogout => run_M (setView HOME) P c
  | UpdateMenu newMenu => refreshMenu newMenu c
  | UpdateQuantity itemId delta => run_M (App.updateCartQuantity itemId delta) P c
  | CartGoBack => run_M (setView HOME) P c
  | CartCheckout => run_M (setView CHECKOUT) P c
  | CheckoutGoBack => run_M (setView CART) P c
  | PlaceOrder details paymentId => run_M (App.handlePlaceOrder details paymentId) P c
  | MyOrdersGoBack => run_M (setView HOME) P c
  | OpenMyOrders => run_M (setView MY_ORDERS) P c
  | LogoClick => with_tap (TapCounter.handleLogoClick (tap c)) c
  | GoToCart => run_M (setView CART) P c
  | AddToCart item => run_M (App.addToCart item) P c
  | PinChange value => setPinInput value c
  | PinSubmit => handleAdminLogin P B c
  | PinCancel => closeModal c
  end.

(** An action and the re-run of the watcher effect that follows the
    render.  A handler runs to its end before the next action: the awaits of
    [handlePlaceOrder] are not interleaved with other actions. *)
Definition step (a : action) (P : Platform) (B : Backend) (c : t) : t :=
  watch_orders (handle a P B c).

(** When an action can happen: the view routing of lines 264-389 renders the
    element that triggers it.  The back button, the clock and the channel do
    not depend on the view.  [handleLogout] is handed to no element of the
    JSX; it is allowed at any time here. *)
Definition enabled (c : t) (a : action) : Prop :=
  let v := view (world c) in
  match a with
  | Back _ | OrdersUpdate _ _ | Logout => True
  | TimePasses ms => 0 <= ms
  | LoginSuccess _ => v = LOGIN
  | PlaceAnotherOrder => v = SUCCESS
  | AdminLogout | UpdateMenu _ => v = ADMIN_DASHBOARD
  | UpdateQuantity _ _ => v = CART \/ v = HOME
  | CartGoBack | CartCheckout => v = CART
  | CheckoutGoBack | PlaceOrder _ _ => v = CHECKOUT
  | MyOrdersGoBack => v = MY_ORDERS
  | OpenMyOrders => v = HOME /\ currentUser c <> None
  | LogoClick | GoToCart | AddToCart _ => v = HOME
  | PinChange _ | PinSubmit | PinCancel =>
      v = HOME /\ TapCounter.showPinModal (tap c) = true
  end.

(** The states the component can be in. *)
Inductive reachable : t -> Prop :=
| reachable_mount P B : reachable (watch_orders (initial_load P B mounted))
| reachable_step a P B c :
    reachable c -> enabled c a -> reachable (step a P B c).

(** The channels open after a list of calls: subscribed and not removed. *)
Fixpoint open_channels (l : list Call) : Z :=
  match l with
  | [] => 0
  | CallSubscribe _ :: rest => 1 + open_channels rest
  | CallRemoveChannel _ :: rest => open_channels rest - 1
  | _ :: rest => open_channels rest
  end.

(** The calls an action added. *)
Definition new_calls (before after : t) : list Call :=
  drop (length (calls before)) (calls after).

End Component.

(** The cart of a world denotes a list of entries with positive quantities
    and pairwise distinct ids. *)
Definition sound_cart (w : World) : Prop :=
  exists cs, cart_contents (heap w) (cart w) = Some cs
             /\ positive_quantities cs /\ NoDup (ids cs).

(** What holds in every state of the component (see [reachable_invariant]):
    the login view is shown exactly when no user is logged in; the watcher
    effect has caught up, its channel is the one of the current user, and the
    calls made so far leave one channel open for a user and none otherwise;
    the cart is sound; the tap counter rests. *)
Definition component_invariant (c : Component.t) : Prop :=
  (view (Component.world c) = LOGIN <-> Component.currentUser c = None)
  /\ Component.stale c = false
  /\ Component.subscription c = Component.currentUser c
  /\ Component.open_channels (Component.calls c)
     = match Component.currentUser c with Some _ => 1 | None => 0 end
  /\ sound_cart (Component.world c)
  /\ TapCounter.resting (Component.tap c).

(** A store that answers every call, with [saved] as the saved user and
    ["4821"] as the admin PIN. *)
Definition answering (saved : option UserProfile.t) : Backend :=
  {| Store_getCurrentUser := Returns saved;
     Store_getMenu := Returns [idli];
     Store_saveCurrentUser := Returns tt;
     Store_logoutUser := Returns tt;
     Store_getAdminPin := Returns "4821" |}.

Definition asha : UserProfile.t :=
  {| UserProfile.name := "Asha"; UserProfile.phone := "9000000001" |}.

(** The component of a returning user, right after mounting. *)
Definition returning_user : Component.t :=
  Component.watch_orders
    (Component.initial_load (obliging 0) (answering (Some asha)) Component.mounted).

(** The returning user has tapped the logo five times, 300 ms apart, and
    typed the PIN into the prompt. *)
Definition pin_typed : Component.t :=
  let P := obliging 10 in
  let B := answering (Some asha) in
  let tap c := Component.step Component.LogoClick P B
                 (Component.step (Component.TimePasses 300) P B c) in
  Component.step (Component.PinChange "4821") P B
    (tap (tap (tap (tap (tap returning_user))))).

(** A platform whose store does not return the delivery fee. *)
Definition without_fee : Platform :=
  {| Store_getDeliveryFee := Throws;
     Store_generateOrderId := Returns "ORD-1001";
     Store_saveOrder := Returns tt;
     Store_saveLastOrder := Returns tt;
     Haptics_notification := Returns tt;
     LocalNotifications_schedule := Returns tt;
     window_open := Returns tt;
     Date_now := 0;
     Math_random := 1 # 3 |}.

(** A platform whose store throws on [saveOrder]. *)
Definition without_persistence : Platform :=
  {| Store_getDeliveryFee := Returns 20;
     Store_generateOrderId := Returns "ORD-1001";
     Store_saveOrder := Throws;
     Store_saveLastOrder := Returns tt;
     Haptics_notification := Returns tt;
     LocalNotifications_schedule := Returns tt;
     window_open := Returns tt;
     Date_now := 0;
     Math_random := 1 # 3 |}.

Definition vada : MenuItem.t :=
  {| MenuItem.id := "B"; MenuItem.name := "Vada"; MenuItem.price := 40 |}.

(** The idli of the menu after a price rise. *)
Definition dearer_idli : MenuItem.t :=
  {| MenuItem.id := "A"; MenuItem.name := "Idli"; MenuItem.price := 120 |}.

(** Two idlis and a vada. *)
Definition breakfast : list CartItem.t := [CartItem.mk idli 2; CartItem.mk vada 1].

(** * Properties *)

(** ** The cart aggregator on values *)

Section CartValues.

Implicit Types (item : MenuItem.t) (i : CartItem.t) (cart pre post : list CartItem.t).

Lemma same_id_true itemId i : same_id itemId i = true <-> MenuItem.id i = itemId.
Proof. unfold same_id. apply String.eqb_eq. Qed.

Lemma same_id_false itemId i : same_id itemId i = false <-> MenuItem.id i <> itemId.
Proof. unfold same_id. apply String.eqb_neq. Qed.

Lemma find_same_id_absent itemId cart :
  (forall i, i ∈ cart -> MenuItem.id i <> itemId) ->
  List.find (same_id itemId) cart = None.
Proof.
  induction cart as [|j cart IH]; intros Habs; simpl; [reflexivity|].
  assert (Hj : same_id itemId j = false).
  { apply same_id_false, Habs. left. }
  rewrite Hj. apply IH. intros i Hi. apply Habs. now right.
Qed.

Lemma find_same_id_present itemId cart i :
  i ∈ cart -> MenuItem.id i = itemId ->
  exists j, List.find (same_id itemId) cart = Some j.
Proof.
  intros Hin Hid. destruct (List.find (same_id itemId) cart) as [j|] eqn:E; [eauto|].
  apply list_elem_of_In in Hin. apply (find_none _ _ E) in Hin.
  apply same_id_false in Hin. contradiction.
Qed.

Lemma addToCart_present item cart i :
  i ∈ cart -> MenuItem.id i = MenuItem.id item ->
  addToCart item cart = List.map (bumped (MenuItem.id item)) cart.
Proof.
  intros Hin Hid. unfold addToCart.
  destruct (find_same_id_present _ _ _ Hin Hid) as [j ->]. reflexivity.
Qed.

Lemma addToCart_absent item cart :
  (forall i, i ∈ cart -> MenuItem.id i <> MenuItem.id item) ->
  addToCart item cart = cart ++ [CartItem.mk item 1].
Proof. intros Habs. unfold addToCart. now rewrite find_same_id_absent. Qed.

(** C5: [addToCart] adds one to the quantity of the entry with the id of the
    item when the cart has one, leaving length and positions as they are,
    and otherwise appends the item with quantity 1 at the end; adding the
    same item twice to the empty cart gives the single entry of quantity 2. *)
Theorem addToCart_increments_or_appends item cart :
  ((exists i, i ∈ cart /\ MenuItem.id i = MenuItem.id item) ->
     length (addToCart item cart) = length cart /\
     forall (k : nat) i, cart !! k = Some i ->
       addToCart item cart !! k =
         Some (if String.eqb (MenuItem.id i) (MenuItem.id item)
               then CartItem.mk i (CartItem.quantity i + 1) else i))
  /\ ((forall i, i ∈ cart -> MenuItem.id i <> MenuItem.id item) ->
        addToCart item cart = cart ++ [CartItem.mk item 1])
  /\ addToCart item (addToCart item []) = [CartItem.mk item 2].
Proof.
  split; [|split].
  - intros (i & Hin & Hid). rewrite (addToCart_present _ _ _ Hin Hid). split.
    + apply length_map.
    + intros k j Hk. change (List.map ?f ?l) with (f <$> l).
      rewrite list_lookup_fmap, Hk. reflexivity.
  - apply addToCart_absent.
  - unfold addToCart; simpl. unfold same_id; simpl. now rewrite String.eqb_refl.
Qed.

Lemma updateCartQuantity_cons itemId delta i cart :
  updateCartQuantity itemId delta (i :: cart) =
  (if 0 <? CartItem.quantity i then adjusted itemId delta i
   else if String.eqb (MenuItem.id i) itemId then adjusted itemId delta i else [])
  ++ updateCartQuantity itemId delta cart.
Proof.
  unfold updateCartQuantity, adjusted, same_id, Math_max; simpl.
  destruct (String.eqb (MenuItem.id i) itemId); simpl.
  - destruct (Z.max 0 (CartItem.quantity i + delta) =? 0) eqn:E0.
    + apply Z.eqb_eq in E0. rewrite E0. simpl. now destruct (0 <? CartItem.quantity i).
    + apply Z.eqb_neq in E0.
      assert (Hpos : (0 <? Z.max 0 (CartItem.quantity i + delta)) = true)
        by (apply Z.ltb_lt; lia).
      rewrite Hpos. now destruct (0 <? CartItem.quantity i).
  - now destruct (0 <? CartItem.quantity i).
Qed.

Lemma updateCartQuantity_flat_map itemId delta cart :
  positive_quantities cart ->
  updateCartQuantity itemId delta cart = List.flat_map (adjusted itemId delta) cart.
Proof.
  induction 1 as [|i cart Hi _ IH]; [reflexivity|].
  rewrite updateCartQuantity_cons. simpl.
  apply Z.ltb_lt in Hi. rewrite Hi. now rewrite IH.
Qed.

Lemma updateCartQuantity_positive itemId delta cart :
  positive_quantities (updateCartQuantity itemId delta cart).
Proof.
  unfold updateCartQuantity, positive_quantities.
  apply Forall_forall. intros i Hi. apply list_elem_of_In, filter_In in Hi.
  now apply Z.ltb_lt.
Qed.

Lemma flat_map_adjusted_absent itemId delta cart :
  (forall i, i ∈ cart -> MenuItem.id i <> itemId) ->
  List.flat_map (adjusted itemId delta) cart = cart.
Proof.
  induction cart as [|j cart IH]; intros Habs; simpl; [reflexivity|].
  rewrite IH by (intros i Hi; apply Habs; now right).
  unfold adjusted. assert (Hj : MenuItem.id j <> itemId) by (apply Habs; left).
  apply String.eqb_neq in Hj. now rewrite Hj.
Qed.

(** C6: on a cart of positive quantities, [updateCartQuantity] puts
    [max 0 (quantity + delta)] in the entry with the given id, drops that
    entry when the result is 0, returns the cart as it is when no entry has
    the id, and leaves no entry with a quantity of 0 or less. *)
Theorem updateCartQuantity_clamps_and_removes itemId delta cart :
  positive_quantities cart ->
  updateCartQuantity itemId delta cart =
    List.flat_map
      (fun i => if String.eqb (MenuItem.id i) itemId then
                  if Z.max 0 (CartItem.quantity i + delta) =? 0 then []
                  else [CartItem.mk i (Z.max 0 (CartItem.quantity i + delta))]
                else [i]) cart
  /\ ((forall i, i ∈ cart -> MenuItem.id i <> itemId) ->
        updateCartQuantity itemId delta cart = cart)
  /\ (forall i, i ∈ updateCartQuantity itemId delta cart -> 0 < CartItem.quantity i).
Proof.
  intros Hpos. split; [|split].
  - apply (updateCartQuantity_flat_map itemId delta cart Hpos).
  - intros Habs. rewrite updateCartQuantity_flat_map by assumption.
    now apply flat_map_adjusted_absent.
  - apply Forall_forall, updateCartQuantity_positive.
Qed.

Lemma others_app itemId c1 c2 : others itemId (c1 ++ c2) = others itemId c1 ++ others itemId c2.
Proof. apply List.filter_app. Qed.

Lemma others_bumped itemId cart :
  others itemId (List.map (bumped itemId) cart) = others itemId cart.
Proof.
  induction cart as [|i cart IH]; [reflexivity|]. simpl.
  unfold others, bumped in *; simpl.
  destruct (String.eqb (MenuItem.id i) itemId) eqn:E; simpl; rewrite E; simpl;
    now rewrite IH.
Qed.

Lemma others_adjusted itemId delta cart :
  others itemId (List.flat_map (adjusted itemId delta) cart) = others itemId cart.
Proof.
  induction cart as [|i cart IH]; [reflexivity|]. simpl.
  rewrite others_app, IH. unfold others, adjusted; simpl.
  destruct (String.eqb (MenuItem.id i) itemId) eqn:E; simpl.
  - destruct (Z.max 0 (CartItem.quantity i + delta) =? 0); simpl; [reflexivity|].
    now rewrite E.
  - now rewrite E.
Qed.

Lemma menuItem_bumped itemId cart :
  List.map CartItem.menuItem (List.map (bumped itemId) cart) = List.map CartItem.menuItem cart.
Proof.
  rewrite List.map_map. apply List.map_ext. intros i. unfold bumped.
  now destruct (String.eqb (MenuItem.id i) itemId).
Qed.

Lemma menuItem_adjusted_sublist itemId delta cart :
  List.map CartItem.menuItem (List.flat_map (adjusted itemId delta) cart)
    `sublist_of` List.map CartItem.menuItem cart.
Proof.
  induction cart as [|i cart IH]; simpl; [constructor|].
  rewrite List.map_app. unfold adjusted at 1.
  destruct (String.eqb (MenuItem.id i) itemId).
  - destruct (Z.max 0 (CartItem.quantity i + delta) =? 0); simpl.
    + now apply sublist_cons.
    + now apply sublist_skip.
  - simpl. now apply sublist_skip.
Qed.

(** C10: on a cart of positive quantities, [addToCart] and
    [updateCartQuantity] return the entries with another id than the
    targeted one as they were and in the order they were in; the menu items
    of the resulting cart are those of the cart in the same order, followed
    by the new item ([addToCart]) or with some left out
    ([updateCartQuantity]). *)
Theorem cart_operations_frame item itemId delta cart :
  positive_quantities cart ->
  others (MenuItem.id item) (addToCart item cart) = others (MenuItem.id item) cart
  /\ (exists new, List.map CartItem.menuItem (addToCart item cart)
                  = List.map CartItem.menuItem cart ++ new
                  /\ (new = [] \/ new = [item]))
  /\ others itemId (updateCartQuantity itemId delta cart) = others itemId cart
  /\ List.map CartItem.menuItem (updateCartQuantity itemId delta cart)
       `sublist_of` List.map CartItem.menuItem cart.
Proof.
  intros Hpos. repeat split.
  - unfold addToCart. destruct (List.find _ cart).
    + apply others_bumped.
    + rewrite others_app. unfold others at 2; simpl.
      rewrite String.eqb_refl; simpl. apply app_nil_r.
  - unfold addToCart. destruct (List.find _ cart).
    + exists []. rewrite app_nil_r. split; [apply menuItem_bumped | now left].
    + exists [item]. rewrite List.map_app. split; [reflexivity | now right].
  - rewrite updateCartQuantity_flat_map by assumption. apply others_adjusted.
  - rewrite updateCartQuantity_flat_map by assumption. apply menuItem_adjusted_sublist.
Qed.

(** The carts the component builds from the empty cart keep positive
    quantities and pairwise distinct ids. *)
Lemma addToCart_positive item cart :
  positive_quantities cart -> positive_quantities (addToCart item cart).
Proof.
  unfold positive_quantities, addToCart. intros Hpos.
  destruct (List.find _ cart).
  - apply List.Forall_map. eapply Forall_impl; [exact Hpos|].
    intros i Hi. simpl in *. destruct (same_id _ i); simpl; lia.
  - apply Forall_app. split; [exact Hpos|]. constructor; [simpl; lia | constructor].
Qed.

Lemma ids_of_menuItems cart :
  List.map (fun i : CartItem.t => MenuItem.id i) cart
  = List.map MenuItem.id (List.map CartItem.menuItem cart).
Proof. now rewrite List.map_map. Qed.

Lemma addToCart_distinct_ids item cart :
  NoDup (List.map (fun i : CartItem.t => MenuItem.id i) cart) ->
  NoDup (List.map (fun i : CartItem.t => MenuItem.id i) (addToCart item cart)).
Proof.
  intros Hnd. unfold addToCart.
  destruct (List.find _ cart) eqn:E.
  - change (fun i => if same_id (MenuItem.id item) i
                     then CartItem.mk i (CartItem.quantity i + 1) else i)
      with (bumped (MenuItem.id item)).
    now rewrite ids_of_menuItems, menuItem_bumped, <- ids_of_menuItems.
  - rewrite List.map_app. simpl. apply NoDup_app. split; [exact Hnd|]. split.
    + intros k Hk Hin. apply list_elem_of_singleton in Hin as ->.
      apply list_elem_of_In, in_map_iff in Hk as (i & Hid & Hi).
      apply (find_none _ _ E) in Hi. apply same_id_false in Hi. contradiction.
    + apply NoDup_singleton.
Qed.

Lemma updateCartQuantity_distinct_ids itemId delta cart :
  positive_quantities cart ->
  NoDup (List.map (fun i : CartItem.t => MenuItem.id i) cart) ->
  NoDup (List.map (fun i : CartItem.t => MenuItem.id i)
           (updateCartQuantity itemId delta cart)).
Proof.
  intros Hpos. rewrite !ids_of_menuItems, updateCartQuantity_flat_map by assumption.
  intros Hnd. eapply sublist_NoDup; [exact Hnd|].
  change (List.map MenuItem.id ?l) with (MenuItem.id <$> l).
  apply fmap_sublist, menuItem_adjusted_sublist.
Qed.

End CartValues.

(** ** The tap counter *)

Section TapCounterProperties.

Import TapCounter.

Implicit Types (g : TapCounter.t) (d : Z).

Lemma tap_below_threshold g :
  rendered g = logoClickCount g -> 0 <= logoClickCount g < 4 ->
  handleLogoClick g =
    {| logoClickCount := logoClickCount g + 1; showPinModal := showPinModal g;
       timer := Some 2000; rendered := logoClickCount g + 1; prompts := prompts g |}.
Proof.
  intros Hr Hc. unfold handleLogoClick, setLogoClickCount, commit, flush; simpl.
  rewrite Hr.
  replace (logoClickCount g + 1 =? logoClickCount g) with false by (symmetry; lia).
  unfold useEffect; simpl.
  replace (0 <? logoClickCount g + 1) with true by (symmetry; lia).
  replace (5 <=? logoClickCount g + 1) with false by (symmetry; lia).
  simpl. now rewrite Z.eqb_refl.
Qed.

Lemma tap_at_threshold g :
  rendered g = logoClickCount g -> logoClickCount g = 4 ->
  handleLogoClick g =
    {| logoClickCount := 0; showPinModal := true; timer := None;
       rendered := 0; prompts := S (prompts g) |}.
Proof.
  intros Hr Hc. unfold handleLogoClick, setLogoClickCount, commit, flush; simpl.
  rewrite Hr, Hc. reflexivity.
Qed.

Lemma elapse_within g remaining d :
  timer g = Some remaining -> d < remaining ->
  elapse d g =
    {| logoClickCount := logoClickCount g; showPinModal := showPinModal g;
       timer := Some (remaining - d); rendered := rendered g; prompts := prompts g |}.
Proof.
  intros Ht Hd. unfold elapse. rewrite Ht.
  now replace (d <? remaining) with true by (symmetry; lia).
Qed.

Lemma elapse_beyond g remaining d :
  rendered g = logoClickCount g -> 0 <= logoClickCount g <= 4 ->
  timer g = Some remaining -> remaining <= d ->
  elapse d g =
    {| logoClickCount := 0; showPinModal := showPinModal g; timer := None;
       rendered := 0; prompts := prompts g |}.
Proof.
  intros Hr Hc Ht Hd. unfold elapse. rewrite Ht.
  replace (d <? remaining) with false by (symmetry; lia).
  unfold timeout_fires, setLogoClickCount, commit, flush; simpl. rewrite Hr.
  destruct (logoClickCount g) as [|p|p]; [reflexivity | reflexivity | lia].
Qed.

(** Two rounds of the effect bring every state to rest: more fuel changes
    nothing. *)
Lemma flush_settles g (fuel : nat) :
  flush (2 + fuel) g = commit g /\ logoClickCount (commit g) = rendered (commit g).
Proof.
  destruct g as [n s t r p]. unfold commit. cbn [Nat.add flush logoClickCount rendered].
  destruct (n =? r) eqn:E.
  - apply Z.eqb_eq in E. now destruct fuel.
  - unfold useEffect; cbn [logoClickCount rendered showPinModal prompts].
    destruct (5 <=? n) eqn:E5; cbn [logoClickCount rendered].
    + apply Z.leb_le in E5.
      replace (0 =? n) with false by (symmetry; lia).
      cbn. now destruct fuel.
    + rewrite Z.eqb_refl. split; [now destruct fuel | reflexivity].
Qed.

Lemma resting_initial : resting initial.
Proof. unfold resting, initial; simpl. lia. Qed.

Lemma resting_step g (i : input) : valid i -> resting g -> resting (step g i).
Proof.
  intros Hv (Hr & Hc & Ht). destruct i as [|ms|]; simpl.
  - destruct (Z.eq_dec (logoClickCount g) 4) as [E|E].
    + rewrite tap_at_threshold by assumption. unfold resting; simpl. lia.
    + rewrite tap_below_threshold by (auto; lia). unfold resting; simpl. lia.
  - simpl in Hv. destruct (timer g) as [remaining|] eqn:E.
    + destruct (Z_lt_ge_dec ms remaining) as [Hlt|Hge].
      * rewrite (elapse_within g remaining) by assumption.
        unfold resting; simpl. lia.
      * rewrite (elapse_beyond g remaining) by (auto; lia).
        unfold resting; simpl. lia.
    + unfold elapse. rewrite E. unfold resting. rewrite E. auto.
  - unfold closePinModal, resting; simpl. auto.
Qed.

(** Every state the counter reaches from its initial state is a resting
    state. *)
Lemma resting_run (inputs : list input) g :
  Forall valid inputs -> resting g -> resting (run inputs g).
Proof.
  intros Hv. revert g. induction Hv as [|i inputs Hi _ IH]; intros g Hg; [exact Hg|].
  simpl. apply IH. now apply resting_step.
Qed.

(** C9: starting from a count of 0, four taps, each less than 2 seconds
    after the one before, show no prompt; a fifth tap within 2 seconds shows
    the prompt exactly once and puts the count back to 0; and in any resting
    state, when 2 seconds or more pass after a tap, the count is back to 0 and
    no prompt is shown by that. *)
Theorem tap_counter g d2 d3 d4 d5 d :
  resting g -> logoClickCount g = 0 ->
  0 <= d2 < 2000 -> 0 <= d3 < 2000 -> 0 <= d4 < 2000 -> 0 <= d5 < 2000 ->
  2000 <= d ->
  let four := run (Tap :: burst [d2; d3; d4]) g in
  let five := run (Tap :: burst [d2; d3; d4; d5]) g in
  (logoClickCount four = 4 /\ prompts four = prompts g
     /\ showPinModal four = showPinModal g)
  /\ (logoClickCount five = 0 /\ prompts five = S (prompts g)
        /\ showPinModal five = true)
  /\ (forall g', resting g' ->
        let tapped := handleLogoClick g' in
        let idle := elapse d tapped in
        logoClickCount idle = 0 /\ prompts idle = prompts tapped
        /\ showPinModal idle = showPinModal tapped).
Proof.
  intros (Hr & Hc & Ht) H0 H2 H3 H4 H5 Hd. simpl.
  rewrite (tap_below_threshold g) by (auto; lia).
  rewrite (elapse_within _ 2000 d2) by (simpl; auto; lia).
  rewrite (tap_below_threshold (TapCounter.mk _ _ _ _ _)) by (simpl; auto; lia). simpl.
  rewrite (elapse_within _ 2000 d3) by (simpl; auto; lia).
  rewrite (tap_below_threshold (TapCounter.mk _ _ _ _ _)) by (simpl; auto; lia). simpl.
  rewrite (elapse_within _ 2000 d4) by (simpl; auto; lia).
  rewrite (tap_below_threshold (TapCounter.mk _ _ _ _ _)) by (simpl; auto; lia). simpl.
  split; [|split].
  - repeat split. lia.
  - rewrite (elapse_within _ 2000 d5) by (simpl; auto; lia).
    rewrite (tap_at_threshold (TapCounter.mk _ _ _ _ _)) by (simpl; auto; lia). simpl. auto.
  - intros g' (Hr' & Hc' & Ht').
    destruct (Z.eq_dec (logoClickCount g') 4) as [E|E].
    + rewrite tap_at_threshold by assumption. unfold elapse; simpl. auto.
    + rewrite tap_below_threshold by (auto; lia).
      rewrite (elapse_beyond _ 2000) by (simpl; auto; lia). simpl. auto.
Qed.

End TapCounterProperties.

(** The counter of a freshly mounted component, tapped five times 300 ms
    apart. *)
Lemma tap_counter_witness :
  let g := TapCounter.initial in
  let four := TapCounter.run (TapCounter.Tap :: TapCounter.burst [300; 300; 300]) g in
  let five := TapCounter.run (TapCounter.Tap :: TapCounter.burst [300; 300; 300; 300]) g in
  (TapCounter.logoClickCount four = 4 /\ TapCounter.prompts four = TapCounter.prompts g
     /\ TapCounter.showPinModal four = TapCounter.showPinModal g)
  /\ (TapCounter.logoClickCount five = 0 /\ TapCounter.prompts five = S (TapCounter.prompts g)
        /\ TapCounter.showPinModal five = true)
  /\ (forall g', TapCounter.resting g' ->
        let tapped := TapCounter.handleLogoClick g' in
        let idle := TapCounter.elapse 2000 tapped in
        TapCounter.logoClickCount idle = 0 /\ TapCounter.prompts idle = TapCounter.prompts tapped
        /\ TapCounter.showPinModal idle = TapCounter.showPinModal tapped).
Proof.
  apply (tap_counter TapCounter.initial 300 300 300 300 2000);
    [ unfold TapCounter.resting; simpl; lia | reflexivity | lia .. ].
Defined.

(** ** The monad of handlers *)

Section Monad.

Context {A B : Type}.

Lemma bind_Ok (m : M A) (k : A -> M B) P w a w1 :
  m P w = (Ok a, w1) -> (x <- m;; k x) P w = k a P w1.
Proof. intros H. unfold bind. now rewrite H. Qed.

Lemma bind_inv (m : M A) (k : A -> M B) P w r w' :
  (x <- m;; k x) P w = (r, w') ->
  (exists a w1, m P w = (Ok a, w1) /\ k a P w1 = (r, w'))
  \/ (m P w = (Exn, w') /\ r = Exn)
  \/ (m P w = (Stuck, w') /\ r = Stuck).
Proof.
  unfold bind. destruct (m P w) as [[a| |] w1]; intros H.
  - left. eauto.
  - right; left. now inversion H.
  - right; right. now inversion H.
Qed.

End Monad.

(** *** Handlers write to no existing object *)

Create HintDb alloc_only.


Lemma ret_allocates_only {A} (a : A) : allocates_only (ret a).
Proof. intros P w r w' H. now inversion H. Qed.

Lemma stuck_allocates_only {A} : allocates_only (@stuck A).
Proof. intros P w r w' H. now inversion H. Qed.

Lemma bind_allocates_only {A B} (m : M A) (k : A -> M B) :
  allocates_only m -> (forall a, allocates_only (k a)) -> allocates_only (x <- m;; k x).
Proof.
  intros Hm Hk P w r w' H.
  apply bind_inv in H as [(a & w1 & H1 & H2) | [[H1 _] | [H1 _]]]; eauto.
  etrans; [eapply Hm | eapply Hk]; eauto.
Qed.

Lemma try_catch_allocates_only (m : M unit) :
  allocates_only m -> allocates_only (try_catch m).
Proof.
  intros Hm P w r w' H. unfold try_catch in H.
  destruct (m P w) as [[a| |] w1] eqn:E; inversion H; subst; eauto.
Qed.

Lemma emit_allocates_only e : allocates_only (emit e).
Proof. intros P w r w' H. now inversion H. Qed.

Lemma ask_allocates_only {A} (f : Platform -> A) : allocates_only (ask f).
Proof. intros P w r w' H. now inversion H. Qed.

Lemma builtin_allocates_only {A} (r : option A) : allocates_only (builtin r).
Proof. intros P w r' w' H. unfold builtin in H. destruct r; now inversion H. Qed.

Lemma alloc_allocates_only o : allocates_only (alloc o).
Proof.
  intros P w r w' H. inversion H; subst; simpl.
  apply insert_subseteq, not_elem_of_dom, is_fresh.
Qed.

Lemma deref_allocates_only l : allocates_only (deref l).
Proof.
  intros P w r w' H. unfold deref in H.
  destruct (heap w !! l); now inversion H.
Qed.

Lemma get_cart_allocates_only : allocates_only get_cart.
Proof. intros P w r w' H. now inversion H. Qed.

Lemma answer_allocates_only {A} (answer : Platform -> outcome A) :
  allocates_only (fun P w => match answer P with
                             | Returns a => (Ok a, w)
                             | Throws => (Exn, w)
                             end).
Proof. intros P w r w' H. destruct (answer P); now inversion H. Qed.

Lemma set_cart_allocates_only value :
  allocates_only (fun _ w => (Ok tt, {| heap := heap w; cart := value; view := view w;
                                         log := log w |})).
Proof. intros P w r w' H. now inversion H. Qed.

Lemma set_view_allocates_only value :
  allocates_only (fun _ w => (Ok tt, {| heap := heap w; cart := cart w; view := value;
                                         log := log w |})).
Proof. intros P w r w' H. now inversion H. Qed.

#[local] Hint Resolve ret_allocates_only stuck_allocates_only bind_allocates_only
  try_catch_allocates_only emit_allocates_only ask_allocates_only
  builtin_allocates_only
  alloc_allocates_only deref_allocates_only get_cart_allocates_only
  answer_allocates_only set_cart_allocates_only set_view_allocates_only : alloc_only.

Lemma mapM_allocates_only {A B} (f : A -> M B) (l : list A) :
  (forall x, allocates_only (f x)) -> allocates_only (mapM_ f l).
Proof.
  intros Hf. induction l as [|x l IH]; simpl.
  - apply ret_allocates_only.
  - apply bind_allocates_only; [apply Hf|]. intros y.
    apply bind_allocates_only; [apply IH|]. intros ys. apply ret_allocates_only.
Qed.

Ltac alloc_only :=
  repeat first
    [ progress intros
    | match goal with
      | |- allocates_only (match ?x with _ => _ end) => destruct x
      | |- allocates_only (if ?x then _ else _) => destruct x
      end
    | apply bind_allocates_only
    | apply try_catch_allocates_only
    | apply mapM_allocates_only
    | solve [eauto with alloc_only] ].

Lemma call_allocates_only {A} e (answer : Platform -> outcome A) :
  allocates_only (call e answer).
Proof. unfold call. alloc_only. Qed.

Lemma elements_allocates_only a : allocates_only (elements a).
Proof. unfold elements. alloc_only. Qed.

Lemma fields_allocates_only i : allocates_only (fields i).
Proof. unfold fields. alloc_only. Qed.

Lemma order_fields_allocates_only o : allocates_only (order_fields o).
Proof. unfold order_fields. alloc_only. Qed.

Lemma setCart_allocates_only value : allocates_only (setCart value).
Proof. unfold setCart. alloc_only. Qed.

Lemma setView_allocates_only value : allocates_only (setView value).
Proof. unfold setView. alloc_only. Qed.

#[local] Hint Resolve call_allocates_only elements_allocates_only fields_allocates_only
  order_fields_allocates_only setCart_allocates_only setView_allocates_only : alloc_only.

Lemma find_loop_allocates_only p els : allocates_only (find_loop p els).
Proof. induction els; simpl; alloc_only. Qed.

Lemma filter_loop_allocates_only p els : allocates_only (filter_loop p els).
Proof. induction els; simpl; alloc_only. Qed.

#[local] Hint Resolve find_loop_allocates_only filter_loop_allocates_only : alloc_only.

Lemma addToCart_allocates_only item : allocates_only (App.addToCart item).
Proof.
  unfold App.addToCart, setCart_with, Array_find, Array_map, Array_spread_with.
  alloc_only.
Qed.

Lemma updateCartQuantity_allocates_only itemId delta :
  allocates_only (App.updateCartQuantity itemId delta).
Proof.
  unfold App.updateCartQuantity, setCart_with, Array_map, Array_filter.
  alloc_only.
Qed.

Lemma handlePlaceOrder_allocates_only details paymentId :
  allocates_only (App.handlePlaceOrder details paymentId).
Proof.
  unfold App.handlePlaceOrder, Array_reduce, Array_map_string.
  alloc_only.
Qed.

#[local] Hint Resolve addToCart_allocates_only updateCartQuantity_allocates_only
  handlePlaceOrder_allocates_only : alloc_only.

Lemma run_op_allocates_only op : allocates_only (run_op op).
Proof. destruct op; simpl; alloc_only. Qed.

Lemma run_ops_allocates_only ops : allocates_only (run_ops ops).
Proof. induction ops; simpl; alloc_only. apply run_op_allocates_only. Qed.

(** ** Reading the heap *)

Section Reading.

Implicit Types (h : gmap loc obj) (w : World) (els : list loc) (cs : list CartItem.t).

Lemma grown_refl w : grown w w.
Proof. unfold grown. auto. Qed.

Lemma grown_trans w1 w2 w3 : grown w1 w2 -> grown w2 w3 -> grown w1 w3.
Proof.
  intros (H1 & C1 & V1 & L1) (H2 & C2 & V2 & L2). unfold grown.
  repeat split; [etrans; eauto | congruence ..].
Qed.

Lemma item_at_mono h h' l c : h ⊆ h' -> item_at h l = Some c -> item_at h' l = Some c.
Proof.
  unfold item_at. intros Hsub Hl.
  destruct (h !! l) as [[| c' |]|] eqn:E; try discriminate.
  now rewrite (lookup_weaken _ _ _ _ E Hsub).
Qed.

Lemma hold_mono h h' els cs : h ⊆ h' -> hold h els cs -> hold h' els cs.
Proof.
  intros Hsub Hels. unfold hold. eapply Forall2_impl; [exact Hels|].
  intros e c. now apply item_at_mono.
Qed.

Lemma cart_contents_Some h a cs :
  cart_contents h a = Some cs <-> exists els, h !! a = Some (Arr els) /\ hold h els cs.
Proof.
  unfold cart_contents, hold. split.
  - destruct (h !! a) as [[els| |]|]; try discriminate.
    intros H. exists els. split; [reflexivity|]. now apply mapM_Some.
  - intros (els & -> & H). now apply mapM_Some.
Qed.

Lemma cart_contents_mono h h' a cs :
  h ⊆ h' -> cart_contents h a = Some cs -> cart_contents h' a = Some cs.
Proof.
  intros Hsub. rewrite !cart_contents_Some. intros (els & Ha & Hels).
  exists els. split; [eapply lookup_weaken; eauto | eapply hold_mono; eauto].
Qed.

Lemma order_at_mono h h' o x :
  h ⊆ h' -> order_at h o = Some x -> order_at h' o = Some x.
Proof.
  unfold order_at. intros Hsub.
  destruct (h !! o) as [[| |y]|] eqn:E; try discriminate.
  rewrite (lookup_weaken _ _ _ _ E Hsub).
  destruct (cart_contents h (Order.items y)) as [c|] eqn:Ec; [|discriminate].
  now rewrite (cart_contents_mono _ _ _ _ Hsub Ec).
Qed.

Lemma alloc_Ok P w o :
  exists l w', alloc o P w = (Ok l, w') /\ grown w w' /\ heap w' !! l = Some o
               /\ heap w !! l = None.
Proof.
  eexists _, _. split; [reflexivity|]. unfold grown; simpl.
  assert (Hfresh : heap w !! fresh (dom (heap w)) = None)
    by apply not_elem_of_dom, is_fresh.
  repeat split; auto.
  - now apply insert_subseteq.
  - apply lookup_insert_eq.
Qed.

Lemma elements_Ok P w a els :
  heap w !! a = Some (Arr els) -> elements a P w = (Ok els, w).
Proof. intros H. unfold elements, bind, deref. now rewrite H. Qed.

Lemma fields_Ok P w i c : item_at (heap w) i = Some c -> fields i P w = (Ok c, w).
Proof.
  unfold item_at, fields, bind, deref.
  destruct (heap w !! i) as [[| c' |]|]; try discriminate. now intros [= ->].
Qed.

Lemma order_fields_Ok P w o x :
  heap w !! o = Some (Ord x) -> order_fields o P w = (Ok x, w).
Proof. intros H. unfold order_fields, bind, deref. now rewrite H. Qed.

Lemma mapM_fields_Ok P w els cs :
  hold (heap w) els cs -> mapM_ fields els P w = (Ok cs, w).
Proof.
  induction 1 as [|e c els cs He _ IH]; simpl; [reflexivity|].
  rewrite (bind_Ok _ _ _ _ _ _ (fields_Ok P w e c He)).
  now rewrite (bind_Ok _ _ _ _ _ _ IH).
Qed.

Lemma Array_reduce_Ok {A} (f : A -> CartItem.t -> A) init P w a cs :
  cart_contents (heap w) a = Some cs ->
  Array_reduce f a init P w = (Ok (fold_left f cs init), w).
Proof.
  intros (els & Ha & Hels)%cart_contents_Some. unfold Array_reduce.
  rewrite (bind_Ok _ _ _ _ _ _ (elements_Ok P w a els Ha)).
  now rewrite (bind_Ok _ _ _ _ _ _ (mapM_fields_Ok P w els cs Hels)).
Qed.

Lemma Array_map_string_Ok (f : CartItem.t -> string) P w a cs :
  cart_contents (heap w) a = Some cs ->
  Array_map_string f a P w = (Ok (List.map f cs), w).
Proof.
  intros (els & Ha & Hels)%cart_contents_Some. unfold Array_map_string.
  rewrite (bind_Ok _ _ _ _ _ _ (elements_Ok P w a els Ha)).
  now rewrite (bind_Ok _ _ _ _ _ _ (mapM_fields_Ok P w els cs Hels)).
Qed.

Lemma find_loop_Ok p P w els cs :
  hold (heap w) els cs ->
  exists r, find_loop p els P w = (Ok r, w) /\ (r = None <-> List.find p cs = None).
Proof.
  induction 1 as [|e c els cs He _ IH]; simpl.
  - exists None. split; [reflexivity | tauto].
  - rewrite (bind_Ok _ _ _ _ _ _ (fields_Ok P w e c He)).
    destruct (p c).
    + exists (Some e). split; [reflexivity|]. split; discriminate.
    + exact IH.
Qed.

Lemma Array_find_Ok p P w a cs :
  cart_contents (heap w) a = Some cs ->
  exists r, Array_find p a P w = (Ok r, w) /\ (r = None <-> List.find p cs = None).
Proof.
  intros (els & Ha & Hels)%cart_contents_Some. unfold Array_find.
  rewrite (bind_Ok _ _ _ _ _ _ (elements_Ok P w a els Ha)).
  now apply find_loop_Ok.
Qed.

Lemma filter_loop_Ok p P w els cs :
  hold (heap w) els cs ->
  exists kept, filter_loop p els P w = (Ok kept, w)
               /\ hold (heap w) kept (List.filter p cs).
Proof.
  induction 1 as [|e c els cs He _ (kept & IH & Hkept)]; simpl.
  - exists []. split; [reflexivity | constructor].
  - rewrite (bind_Ok _ _ _ _ _ _ (fields_Ok P w e c He)).
    rewrite (bind_Ok _ _ _ _ _ _ IH).
    eexists. split; [reflexivity|].
    destruct (p c); [now constructor | assumption].
Qed.

(** A new array of references that hold [cs] denotes the cart [cs]. *)
Lemma alloc_Arr_Ok P w els cs :
  hold (heap w) els cs ->
  exists a w', alloc (Arr els) P w = (Ok a, w') /\ grown w w'
               /\ cart_contents (heap w') a = Some cs.
Proof.
  intros Hels. destruct (alloc_Ok P w (Arr els)) as (a & w' & Ha & Hg & Hl & _).
  exists a, w'. repeat split; try apply Hg; [exact Ha|].
  apply cart_contents_Some. exists els. split; [exact Hl|].
  eapply hold_mono; [apply Hg | exact Hels].
Qed.

Lemma Array_filter_Ok p P w a cs :
  cart_contents (heap w) a = Some cs ->
  exists a' w', Array_filter p a P w = (Ok a', w') /\ grown w w'
                /\ cart_contents (heap w') a' = Some (List.filter p cs).
Proof.
  intros (els & Ha & Hels)%cart_contents_Some. unfold Array_filter.
  rewrite (bind_Ok _ _ _ _ _ _ (elements_Ok P w a els Ha)).
  destruct (filter_loop_Ok p P w els cs Hels) as (kept & Hk & Hkept).
  rewrite (bind_Ok _ _ _ _ _ _ Hk). now apply alloc_Arr_Ok.
Qed.

End Reading.

(** ** The handlers of the cart compute the cart operations *)

Section Refinement.

Implicit Types (h : gmap loc obj) (w : World) (els : list loc) (cs : list CartItem.t).

Lemma mapM_computes g f P :
  computes g f P ->
  forall els cs w, hold (heap w) els cs ->
    exists els' w', mapM_ g els P w = (Ok els', w') /\ grown w w'
                    /\ hold (heap w') els' (List.map f cs).
Proof.
  intros Hg els. induction els as [|e els IH]; intros cs w Hels.
  - apply Forall2_nil_inv_l in Hels as ->.
    exists [], w. repeat split; try apply grown_refl. constructor.
  - apply Forall2_cons_inv_l in Hels as (c & cs' & He & Hels & ->).
    destruct (Hg w e c He) as (e' & w1 & Hrun & Hgrow1 & He').
    assert (Hels1 : hold (heap w1) els cs') by (eapply hold_mono; [apply Hgrow1 | exact Hels]).
    destruct (IH cs' w1 Hels1) as (els' & w2 & Hrun2 & Hgrow2 & Hels').
    exists (e' :: els'), w2. simpl.
    rewrite (bind_Ok _ _ _ _ _ _ Hrun), (bind_Ok _ _ _ _ _ _ Hrun2).
    repeat split; try apply (grown_trans _ _ _ Hgrow1 Hgrow2).
    constructor; [|exact Hels'].
    eapply item_at_mono; [apply Hgrow2 | exact He'].
Qed.

Lemma Array_map_Ok g f P w a cs :
  computes g f P -> cart_contents (heap w) a = Some cs ->
  exists a' w', Array_map g a P w = (Ok a', w') /\ grown w w'
                /\ cart_contents (heap w') a' = Some (List.map f cs).
Proof.
  intros Hg (els & Ha & Hels)%cart_contents_Some. unfold Array_map.
  rewrite (bind_Ok _ _ _ _ _ _ (elements_Ok P w a els Ha)).
  destruct (mapM_computes g f P Hg els cs w Hels) as (els' & w1 & Hrun & Hgrow1 & Hels').
  rewrite (bind_Ok _ _ _ _ _ _ Hrun).
  destruct (alloc_Arr_Ok P w1 els' _ Hels') as (a' & w2 & Hrun2 & Hgrow2 & Ha').
  exists a', w2. split; [exact Hrun2|]. split; [|exact Ha'].
  eapply grown_trans; eauto.
Qed.

(** The callback of line 177. *)
Lemma increment_computes itemId P :
  computes
    (fun i => c <- fields i;;
              if same_id itemId c
              then alloc (Item (CartItem.mk c (CartItem.quantity c + 1)))
              else ret i)
    (fun i => if same_id itemId i then CartItem.mk i (CartItem.quantity i + 1) else i)
    P.
Proof.
  intros w e c He. rewrite (bind_Ok _ _ _ _ _ _ (fields_Ok P w e c He)).
  destruct (same_id itemId c).
  - destruct (alloc_Ok P w (Item (CartItem.mk c (CartItem.quantity c + 1))))
      as (l & w' & Hrun & Hgrow & Hl & _).
    exists l, w'. repeat split; try apply Hgrow; [exact Hrun|].
    unfold item_at. now rewrite Hl.
  - exists e, w. repeat split; try apply grown_refl. exact He.
Qed.

(** The callback of lines 185-190. *)
Lemma clamp_computes itemId delta P :
  computes
    (fun item => c <- fields item;;
                 if same_id itemId c
                 then alloc (Item (CartItem.mk c (Math_max 0 (CartItem.quantity c + delta))))
                 else ret item)
    (fun item => if same_id itemId item
                 then CartItem.mk item (Math_max 0 (CartItem.quantity item + delta))
                 else item)
    P.
Proof.
  intros w e c He. rewrite (bind_Ok _ _ _ _ _ _ (fields_Ok P w e c He)).
  destruct (same_id itemId c).
  - destruct (alloc_Ok P w (Item (CartItem.mk c (Math_max 0 (CartItem.quantity c + delta)))))
      as (l & w' & Hrun & Hgrow & Hl & _).
    exists l, w'. repeat split; try apply Hgrow; [exact Hrun|].
    unfold item_at. now rewrite Hl.
  - exists e, w. repeat split; try apply grown_refl. exact He.
Qed.

Lemma setCart_with_Ok updater P w a w1 :
  updater (cart w) P w = (Ok a, w1) -> grown w w1 ->
  setCart_with updater P w =
    (Ok tt, {| heap := heap w1; cart := a; view := view w;
               log := log w ++ [EvSetCart a] |}).
Proof.
  intros Hrun (_ & _ & Hv & Hl). unfold setCart_with.
  unfold bind at 1. simpl. rewrite (bind_Ok _ _ _ _ _ _ Hrun).
  unfold setCart, bind, emit. simpl. now rewrite Hv, Hl.
Qed.

(** On a well-formed world, the handler [addToCart] ends normally, in a
    world whose cart denotes [addToCart item c]; it adds objects to the heap,
    logs its [setCart] and changes nothing else. *)
Lemma App_addToCart_refines item P w c :
  cart_contents (heap w) (cart w) = Some c ->
  exists w', App.addToCart item P w = (Ok tt, w')
             /\ cart_contents (heap w') (cart w') = Some (addToCart item c)
             /\ heap w ⊆ heap w' /\ view w' = view w
             /\ log w' = log w ++ [EvSetCart (cart w')].
Proof.
  intros Hc. unfold App.addToCart.
  destruct (Array_find_Ok (same_id (MenuItem.id item)) P w (cart w) c Hc) as (r & Hfind & Hr).
  destruct r as [e|].
  - destruct (Array_map_Ok _ _ P w (cart w) c (increment_computes (MenuItem.id item) P) Hc)
      as (a' & w1 & Hrun & Hgrow & Ha').
    eexists. split.
    { apply (setCart_with_Ok _ P w a' w1); [|exact Hgrow].
      now rewrite (bind_Ok _ _ _ _ _ _ Hfind). }
    simpl. repeat split; try apply Hgrow.
    unfold addToCart. destruct (List.find _ c); [exact Ha'|].
    destruct Hr as [_ Hr]. discriminate (Hr eq_refl).
  - destruct (alloc_Ok P w (Item (CartItem.mk item 1))) as (x & w1 & Hx & Hgrow1 & Hlx & _).
    apply cart_contents_Some in Hc as (els & Ha & Hels).
    assert (Hnew : hold (heap w1) (els ++ [x]) (c ++ [CartItem.mk item 1])).
    { apply Forall2_app; [eapply hold_mono; [apply Hgrow1 | exact Hels]|].
      constructor; [|constructor]. unfold item_at. now rewrite Hlx. }
    destruct (alloc_Arr_Ok P w1 _ _ Hnew) as (a' & w2 & Hrun2 & Hgrow2 & Ha').
    eexists. split.
    { apply (setCart_with_Ok _ P w a' w2); [|eapply grown_trans; eauto].
      rewrite (bind_Ok _ _ _ _ _ _ Hfind), (bind_Ok _ _ _ _ _ _ Hx).
      unfold Array_spread_with.
      assert (Ha1 : heap w1 !! cart w = Some (Arr els))
        by (eapply lookup_weaken; [exact Ha | apply Hgrow1]).
      now rewrite (bind_Ok _ _ _ _ _ _ (elements_Ok P w1 _ els Ha1)). }
    simpl. repeat split.
    + unfold addToCart. replace (List.find _ c) with (@None CartItem.t); [exact Ha'|].
      symmetry. now apply Hr.
    + etrans; [apply Hgrow1 | apply Hgrow2].
Qed.

(** The same for [updateCartQuantity]. *)
Lemma App_updateCartQuantity_refines itemId delta P w c :
  cart_contents (heap w) (cart w) = Some c ->
  exists w', App.updateCartQuantity itemId delta P w = (Ok tt, w')
             /\ cart_contents (heap w') (cart w') = Some (updateCartQuantity itemId delta c)
             /\ heap w ⊆ heap w' /\ view w' = view w
             /\ log w' = log w ++ [EvSetCart (cart w')].
Proof.
  intros Hc. unfold App.updateCartQuantity.
  destruct (Array_map_Ok _ _ P w (cart w) c (clamp_computes itemId delta P) Hc)
    as (a1 & w1 & Hrun1 & Hgrow1 & Ha1).
  destruct (Array_filter_Ok (fun item => 0 <? CartItem.quantity item) P w1 a1 _ Ha1)
    as (a2 & w2 & Hrun2 & Hgrow2 & Ha2).
  eexists. split.
  { apply (setCart_with_Ok _ P w a2 w2); [|eapply grown_trans; eauto].
    now rewrite (bind_Ok _ _ _ _ _ _ Hrun1). }
  simpl. repeat split; [exact Ha2|].
  etrans; [apply Hgrow1 | apply Hgrow2].
Qed.

(** Clearing the cart, line 233. *)
Lemma clear_Ok P w :
  exists w', (empty <- alloc (Arr []);; setCart empty) P w = (Ok tt, w')
             /\ cart_contents (heap w') (cart w') = Some []
             /\ heap w ⊆ heap w' /\ view w' = view w
             /\ log w' = log w ++ [EvSetCart (cart w')].
Proof.
  assert (Hnil : hold (heap w) [] []) by constructor.
  destruct (alloc_Arr_Ok P w [] [] Hnil) as (a & w1 & Hrun & Hgrow & Ha).
  eexists. split.
  { rewrite (bind_Ok _ _ _ _ _ _ Hrun). reflexivity. }
  simpl. destruct Hgrow as (Hh & _ & Hv & Hl). rewrite Hv, Hl. auto.
Qed.

(** Cart operations keep worlds well formed and never get stuck. *)
Lemma run_op_Ok op P w :
  wf w -> exists w', run_op op P w = (Ok tt, w') /\ wf w' /\ heap w ⊆ heap w'.
Proof.
  intros [c Hc]. destruct op as [item|itemId delta|]; simpl.
  - destruct (App_addToCart_refines item P w c Hc) as (w' & Hrun & Hc' & Hh & _).
    exists w'. repeat split; auto. now exists (addToCart item c).
  - destruct (App_updateCartQuantity_refines itemId delta P w c Hc)
      as (w' & Hrun & Hc' & Hh & _).
    exists w'. repeat split; auto. now exists (updateCartQuantity itemId delta c).
  - destruct (clear_Ok P w) as (w' & Hrun & Hc' & Hh & _).
    exists w'. repeat split; auto. now exists [].
Qed.

Lemma run_ops_Ok ops P w :
  wf w -> exists w', run_ops ops P w = (Ok tt, w') /\ wf w' /\ heap w ⊆ heap w'.
Proof.
  revert w. induction ops as [|op ops IH]; intros w Hw; simpl.
  - exists w. auto.
  - destruct (run_op_Ok op P w Hw) as (w1 & Hrun1 & Hw1 & Hh1).
    destruct (IH w1 Hw1) as (w2 & Hrun2 & Hw2 & Hh2).
    exists w2. rewrite (bind_Ok _ _ _ _ _ _ Hrun1). repeat split; auto.
    etrans; eauto.
Qed.

End Refinement.

(** ** Running [handlePlaceOrder] *)

Section PlaceOrder.

Implicit Types (w : World) (P : Platform).

Lemma deref_reads_only l : reads_only (deref l).
Proof. intros P w r w' H. unfold deref in H. destruct (heap w !! l); now inversion H. Qed.

Lemma bind_reads_only {A B} (m : M A) (k : A -> M B) :
  reads_only m -> (forall a, reads_only (k a)) -> reads_only (x <- m;; k x).
Proof.
  intros Hm Hk P w r w' H.
  apply bind_inv in H as [(a & w1 & H1 & H2) | [[H1 _] | [H1 _]]].
  - apply Hm in H1. subst w1. now apply Hk in H2.
  - now apply Hm in H1.
  - now apply Hm in H1.
Qed.

Lemma ret_reads_only {A} (a : A) : reads_only (ret a).
Proof. intros P w r w' H. now inversion H. Qed.

Lemma stuck_reads_only {A} : reads_only (@stuck A).
Proof. intros P w r w' H. now inversion H. Qed.

Lemma elements_reads_only a : reads_only (elements a).
Proof.
  apply bind_reads_only; [apply deref_reads_only|].
  intros [| |]; auto using ret_reads_only, stuck_reads_only.
Qed.

Lemma fields_reads_only i : reads_only (fields i).
Proof.
  apply bind_reads_only; [apply deref_reads_only|].
  intros [| |]; auto using ret_reads_only, stuck_reads_only.
Qed.

Lemma order_fields_reads_only o : reads_only (order_fields o).
Proof.
  apply bind_reads_only; [apply deref_reads_only|].
  intros [| |]; auto using ret_reads_only, stuck_reads_only.
Qed.

Lemma mapM_fields_reads_only els : reads_only (mapM_ fields els).
Proof.
  induction els as [|e els IH]; simpl; [apply ret_reads_only|].
  apply bind_reads_only; [apply fields_reads_only|]. intros c.
  apply bind_reads_only; [apply IH|]. intros cs. apply ret_reads_only.
Qed.

Lemma Array_reduce_reads_only {A} (f : A -> CartItem.t -> A) a init :
  reads_only (Array_reduce f a init).
Proof.
  apply bind_reads_only; [apply elements_reads_only|]. intros els.
  apply bind_reads_only; [apply mapM_fields_reads_only|]. intros cs. apply ret_reads_only.
Qed.

Lemma Array_map_string_reads_only f a : reads_only (Array_map_string f a).
Proof.
  apply bind_reads_only; [apply elements_reads_only|]. intros els.
  apply bind_reads_only; [apply mapM_fields_reads_only|]. intros cs. apply ret_reads_only.
Qed.

Lemma call_eq {A} e (answer : Platform -> outcome A) P w :
  call e answer P w =
    (match answer P with Returns a => Ok a | Throws => Exn end, logged e w).
Proof. unfold call, bind, emit, logged. simpl. now destruct (answer P). Qed.

Lemma try_call_eq e (answer : Platform -> outcome unit) P w :
  try_catch (call e answer) P w = (Ok tt, logged e w).
Proof. unfold try_catch. rewrite call_eq. now destruct (answer P) as [[]|]. Qed.

Lemma bind_call_eq {A B} e (answer : Platform -> outcome A) (k : A -> M B) P w :
  (x <- call e answer;; k x) P w =
    match answer P with
    | Returns a => k a P (logged e w)
    | Throws => (Exn, logged e w)
    end.
Proof. unfold bind at 1. rewrite call_eq. now destruct (answer P). Qed.

Lemma bind_try_call_eq {B} e (answer : Platform -> outcome unit) (k : unit -> M B) P w :
  (x <- try_catch (call e answer);; k x) P w = k tt P (logged e w).
Proof. unfold bind at 1. now rewrite try_call_eq. Qed.

Lemma bind_try_ask_call_eq {A B} (f : Platform -> A) (e : A -> Event)
    (answer : Platform -> outcome unit) (k : unit -> M B) P w :
  (x <- try_catch (y <- ask f;; call (e y) answer);; k x) P w = k tt P (logged (e (f P)) w).
Proof.
  unfold bind at 1, try_catch. unfold bind at 1, ask. rewrite call_eq.
  now destruct (answer P) as [[]|].
Qed.

Lemma bind_ask_eq {A B} (f : Platform -> A) (k : A -> M B) P w :
  (x <- ask f;; k x) P w = k (f P) P w.
Proof. reflexivity. Qed.

Lemma bind_builtin_eq {A B} (r : option A) (k : A -> M B) P w :
  (x <- builtin r;; k x) P w = match r with Some a => k a P w | None => (Exn, w) end.
Proof. unfold bind, builtin. now destruct r. Qed.

Lemma bind_get_cart_eq {B} (k : loc -> M B) P w :
  (x <- get_cart;; k x) P w = k (cart w) P w.
Proof. reflexivity. Qed.

Lemma bind_alloc_eq {B} o (k : loc -> M B) P w :
  (l <- alloc o;; k l) P w =
    k (fresh (dom (heap w))) P
      {| heap := <[fresh (dom (heap w)) := o]> (heap w); cart := cart w;
         view := view w; log := log w |}.
Proof. reflexivity. Qed.

Lemma bind_setCart_eq {B} a (k : unit -> M B) P w :
  (x <- setCart a;; k x) P w =
    k tt P {| heap := heap w; cart := a; view := view w; log := log w ++ [EvSetCart a] |}.
Proof. reflexivity. Qed.

Lemma bind_setView_eq {B} v (k : unit -> M B) P w :
  (x <- setView v;; k x) P w =
    k tt P {| heap := heap w; cart := cart w; view := v; log := log w ++ [EvSetView v] |}.
Proof. reflexivity. Qed.

(** A prefix of the events of a complete run. *)
Ltac events_prefix :=
  simpl; rewrite <- ?app_assoc; simpl;
  eexists _, _, _, _; split; [reflexivity | eexists; reflexivity].

(** Whatever the platform answers and whatever the heap holds, the events
    of a run of [handlePlaceOrder] are the events of a complete run, or the
    first few of them. *)
Lemma handlePlaceOrder_events details paymentId P w :
  exists o e u evs,
    log (snd (App.handlePlaceOrder details paymentId P w)) = log w ++ evs
    /\ evs `prefix_of` placeOrder_events P o (cart w) e u.
Proof.
  unfold App.handlePlaceOrder. rewrite bind_get_cart_eq.
  unfold bind at 1.
  destruct (Array_reduce _ (cart w) 0 P w) as [[total| |] w0] eqn:E;
    apply Array_reduce_reads_only in E; subst w0.
  2,3: exists 1%positive, 1%positive, "", []; simpl;
       rewrite app_nil_r; split; [reflexivity | apply prefix_nil].
  rewrite bind_call_eq. destruct (Store_getDeliveryFee P) as [fee|]; [|events_prefix].
  rewrite bind_call_eq. destruct (Store_generateOrderId P) as [orderId|]; [|events_prefix].
  rewrite bind_ask_eq, bind_alloc_eq.
  rewrite bind_call_eq. destruct (Store_saveOrder P) as [[]|]; [|events_prefix].
  rewrite bind_call_eq. destruct (Store_saveLastOrder P) as [[]|]; [|events_prefix].
  rewrite bind_try_call_eq, bind_try_ask_call_eq.
  rewrite bind_alloc_eq, bind_setCart_eq, bind_setView_eq.
  unfold bind at 1.
  match goal with |- context [order_fields ?o P ?w1] =>
    destruct (order_fields o P w1) as [[x| |] w2] eqn:E;
      apply order_fields_reads_only in E; subst w2 end.
  2,3: events_prefix.
  unfold bind at 1.
  match goal with |- context [Array_map_string ?f ?a P ?w1] =>
    destruct (Array_map_string f a P w1) as [[lines| |] w2] eqn:E;
      apply Array_map_string_reads_only in E; subst w2 end.
  2,3: events_prefix.
  rewrite bind_builtin_eq.
  destruct (encodeURIComponent _) as [encoded|]; [|events_prefix].
  rewrite call_eq. events_prefix.
  Unshelve. all: first [exact 1%positive | exact ""].
Qed.

End PlaceOrder.

(** ** Properties of [handlePlaceOrder] *)

Section PlaceOrderProperties.

Implicit Types (w : World) (P : Platform) (c : list CartItem.t).

Lemma fold_left_price_quantity c (acc : Z) :
  fold_left (fun a (i : CartItem.t) => a + MenuItem.price i * CartItem.quantity i) c acc
  = acc + sum_price_quantity c.
Proof.
  revert acc. induction c as [|i c IH]; intros acc; simpl; [lia|].
  rewrite IH. lia.
Qed.

(** [Math.round(n * 0.05)] on an integer [n] is [(n + 10) / 20], rounded
    down. *)
Lemma gst_closed_form (n : Z) : Math_round (inject_Z n * (5 # 100))%Q = (n + 10) / 20.
Proof.
  unfold Math_round.
  assert (E : (inject_Z n * (5 # 100) + (1 # 2) == (n + 10) # 20)%Q).
  { unfold Qeq, Qplus, Qmult, inject_Z; simpl. lia. }
  rewrite E. reflexivity.
Qed.

Lemma new_events_app w w' evs : log w' = log w ++ evs -> new_events w w' = evs.
Proof. intros H. unfold new_events. rewrite H. apply drop_app_length. Qed.

Lemma persisted_first_complete P (o a e : loc) u :
  persisted_first (placeOrder_events P o a e u).
Proof.
  intros k ev Hk Hev.
  do 9 (destruct k as [|k];
         [ simpl in Hk; injection Hk as <-;
           first [ destruct Hev as [[a' Ha]|Ha]; discriminate
                 | exists 2%nat, 3%nat, o, a; repeat split; lia ] |]).
  simpl in Hk. discriminate.
Qed.

Lemma persisted_first_prefix (evs full : list Event) :
  evs `prefix_of` full -> persisted_first full -> persisted_first evs.
Proof.
  intros [rest ->] Hfull k ev Hk Hev.
  assert (Hlen : (k < length evs)%nat) by (eapply lookup_lt_Some; eauto).
  destruct (Hfull k ev) as (i & j & o & c & Hi & Hj & Hio & Hjc); auto.
  { now rewrite lookup_app_l. }
  exists i, j, o, c. rewrite lookup_app_l in Hio, Hjc by lia. auto.
Qed.

(** The run of [handlePlaceOrder] on a well-formed world, once the delivery
    fee and the order id are there: the order object is created at a new
    reference [o]; then the run ends at the first persistence call that
    throws, or clears the cart and shows the success view; then it ends with
    the exception of [encodeURIComponent], or hands the link to
    [window.open]. *)
Lemma handlePlaceOrder_run details paymentId P w c fee orderId :
  cart_contents (heap w) (cart w) = Some c ->
  Store_getDeliveryFee P = Returns fee ->
  Store_generateOrderId P = Returns orderId ->
  let o := fresh (dom (heap w)) in
  let x := order_of P orderId (cart w) c fee details paymentId in
  let h1 := <[o := Ord x]> (heap w) in
  let e := fresh (dom h1) in
  App.handlePlaceOrder details paymentId P w =
    match Store_saveOrder P with
    | Throws =>
        (Exn, {| heap := h1; cart := cart w; view := view w;
                 log := log w ++ [EvGetDeliveryFee; EvGenerateOrderId; EvSaveOrder o] |})
    | Returns _ =>
        match Store_saveLastOrder P with
        | Throws =>
            (Exn, {| heap := h1; cart := cart w; view := view w;
                     log := log w ++ [EvGetDeliveryFee; EvGenerateOrderId;
                                      EvSaveOrder o; EvSaveLastOrder (cart w)] |})
        | Returns _ =>
            match encodeURIComponent (handoff_message orderId details c fee paymentId) with
            | None =>
                (Exn,
                 {| heap := <[e := Arr []]> h1; cart := e; view := SUCCESS;
                    log := log w ++ [EvGetDeliveryFee; EvGenerateOrderId; EvSaveOrder o;
                                     EvSaveLastOrder (cart w); EvHaptics Success;
                                     EvSchedule [App.miss_you (Date_now P)];
                                     EvSetCart e; EvSetView SUCCESS] |})
            | Some encoded =>
                (match window_open P with Returns _ => Ok tt | Throws => Exn end,
                 {| heap := <[e := Arr []]> h1; cart := e; view := SUCCESS;
                    log := log w ++ placeOrder_events P o (cart w) e (whatsappUrl encoded) |})
            end
        end
    end.
Proof.
  intros Hc Hfee Hid o x h1 e.
  assert (Ho : heap w !! o = None) by apply not_elem_of_dom, is_fresh.
  assert (He : h1 !! e = None) by apply not_elem_of_dom, is_fresh.
  assert (Hsub1 : heap w ⊆ h1) by now apply insert_subseteq.
  assert (Hsub2 : h1 ⊆ <[e := Arr []]> h1) by now apply insert_subseteq.
  assert (Hox : <[e := Arr []]> h1 !! o = Some (Ord x)).
  { eapply lookup_weaken; [|exact Hsub2]. apply lookup_insert_eq. }
  assert (Hc2 : cart_contents (<[e := Arr []]> h1) (cart w) = Some c).
  { eapply cart_contents_mono; [exact Hsub2|].
    eapply cart_contents_mono; [exact Hsub1 | exact Hc]. }
  unfold App.handlePlaceOrder. rewrite bind_get_cart_eq.
  rewrite (bind_Ok _ _ _ _ _ _ (Array_reduce_Ok _ 0 P w (cart w) c Hc)).
  rewrite fold_left_price_quantity, Z.add_0_l.
  rewrite bind_call_eq, Hfee, bind_call_eq, Hid, bind_ask_eq, bind_alloc_eq.
  fold o. change (Ord _) with (Ord x). fold h1.
  rewrite bind_call_eq. destruct (Store_saveOrder P) as [[]|].
  2: { unfold logged; simpl. now rewrite <- !app_assoc. }
  rewrite bind_call_eq. destruct (Store_saveLastOrder P) as [[]|].
  2: { unfold logged; simpl. now rewrite <- !app_assoc. }
  rewrite bind_try_call_eq, bind_try_ask_call_eq, bind_alloc_eq.
  unfold logged at 1 2 3 4; simpl. fold e.
  rewrite bind_setCart_eq, bind_setView_eq. simpl.
  erewrite bind_Ok; [|apply order_fields_Ok; simpl; exact Hox].
  erewrite bind_Ok; [|apply Array_map_string_Ok; simpl; exact Hc2].
  rewrite bind_builtin_eq.
  change (App.order_message _ details _ _ paymentId)
    with (handoff_message orderId details c fee paymentId).
  destruct (encodeURIComponent _) as [encoded|].
  2: { unfold logged; simpl. now rewrite <- !app_assoc. }
  rewrite call_eq. unfold logged; simpl. rewrite <- !app_assoc. simpl.
  destruct (window_open P) as [[]|]; reflexivity.
Qed.

(** Once the delivery fee and the order id are there, the run logs
    [Store.saveOrder] for exactly one reference, the new order object; after
    the run that object denotes the order built from the cart as it was at
    submission, whatever happened to the state variable [cart]; and the world
    is well formed. *)
Lemma handlePlaceOrder_snapshot details paymentId P w c fee orderId :
  cart_contents (heap w) (cart w) = Some c ->
  Store_getDeliveryFee P = Returns fee ->
  Store_generateOrderId P = Returns orderId ->
  let w1 := snd (App.handlePlaceOrder details paymentId P w) in
  let x := order_of P orderId (cart w) c fee details paymentId in
  exists o,
    (forall o', EvSaveOrder o' ∈ new_events w w1 <-> o' = o)
    /\ heap w1 !! o = Some (Ord x)
    /\ order_at (heap w1) o = Some (x, c)
    /\ wf w1.
Proof.
  intros Hc Hfee Hid w1 x.
  pose proof (handlePlaceOrder_run details paymentId P w c fee orderId Hc Hfee Hid)
    as Hrun. simpl in Hrun.
  set (o := fresh (dom (heap w))) in *. fold x in Hrun.
  set (h1 := <[o := Ord x]> (heap w)) in *.
  set (e := fresh (dom h1)) in *.
  assert (Ho : heap w !! o = None) by apply not_elem_of_dom, is_fresh.
  assert (He : h1 !! e = None) by apply not_elem_of_dom, is_fresh.
  assert (Hsub1 : heap w ⊆ h1) by now apply insert_subseteq.
  assert (Hsub2 : h1 ⊆ <[e := Arr []]> h1) by now apply insert_subseteq.
  assert (Hx1 : h1 !! o = Some (Ord x)) by apply lookup_insert_eq.
  assert (Hc1 : cart_contents h1 (cart w) = Some c)
    by (eapply cart_contents_mono; eauto).
  assert (Hat1 : order_at h1 o = Some (x, c)).
  { unfold order_at. rewrite Hx1. simpl. now rewrite Hc1. }
  exists o. subst w1. rewrite Hrun.
  destruct (Store_saveOrder P) as [[]|];
    [destruct (Store_saveLastOrder P) as [[]|];
     [destruct (encodeURIComponent _) as [encoded|]|]|];
    simpl; (split; [|split; [|split]]).
  - intros o'. erewrite new_events_app by reflexivity. unfold placeOrder_events.
    rewrite !elem_of_cons, elem_of_nil. split; [|intros ->; auto].
    intros [H|[H|[H|[H|[H|[H|[H|[H|[H|[]]]]]]]]]]; now inversion H.
  - eapply lookup_weaken; eauto.
  - eapply order_at_mono; eauto.
  - exists []. unfold cart_contents; simpl. now rewrite lookup_insert_eq.
  - intros o'. erewrite new_events_app by reflexivity.
    rewrite !elem_of_cons, elem_of_nil. split; [|intros ->; auto].
    intros [H|[H|[H|[H|[H|[H|[H|[H|[]]]]]]]]]; now inversion H.
  - eapply lookup_weaken; eauto.
  - eapply order_at_mono; eauto.
  - exists []. unfold cart_contents; simpl. now rewrite lookup_insert_eq.
  - intros o'. erewrite new_events_app by reflexivity.
    rewrite !elem_of_cons, elem_of_nil. split; [|intros ->; auto].
    intros [H|[H|[H|[H|[]]]]]; now inversion H.
  - exact Hx1.
  - exact Hat1.
  - now exists c.
  - intros o'. erewrite new_events_app by reflexivity.
    rewrite !elem_of_cons, elem_of_nil. split; [|intros ->; auto].
    intros [H|[H|[H|[]]]]; now inversion H.
  - exact Hx1.
  - exact Hat1.
  - now exists c.
Qed.

(** C4: in every run of [handlePlaceOrder], whatever the collaborators
    answer, each clearing of the cart and each switch to the success view
    comes after the calls of [Store.saveOrder] and [Store.saveLastOrder].
    And the calls are made: once the delivery fee and the order id are
    there, [Store.saveOrder] is called with the new order; when it returns,
    [Store.saveLastOrder] is called with the cart; and when that returns too,
    the run goes on to clear the cart and to show the success view, in that
    order. *)
Theorem persistence_precedes_clearing details paymentId P w :
  let placed := snd (App.handlePlaceOrder details paymentId P w) in
  let events := new_events w placed in
  persisted_first events
  /\ forall c fee orderId,
       cart_contents (heap w) (cart w) = Some c ->
       Store_getDeliveryFee P = Returns fee ->
       Store_generateOrderId P = Returns orderId ->
       exists o,
         order_at (heap placed) o
         = Some (order_of P orderId (cart w) c fee details paymentId, c)
         /\ [EvGetDeliveryFee; EvGenerateOrderId; EvSaveOrder o] `prefix_of` events
         /\ (Store_saveOrder P = Returns tt ->
             [EvGetDeliveryFee; EvGenerateOrderId; EvSaveOrder o; EvSaveLastOrder (cart w)]
               `prefix_of` events)
         /\ (Store_saveOrder P = Returns tt -> Store_saveLastOrder P = Returns tt ->
             exists e,
               events_to_success P o (cart w) e `prefix_of` events
               /\ cart placed = e
               /\ cart_contents (heap placed) e = Some []
               /\ view placed = SUCCESS).
Proof.
  intros placed events. split.
  - destruct (handlePlaceOrder_events details paymentId P w)
      as (o & e & u & evs & Hlog & Hpre).
    subst events placed. rewrite (new_events_app _ _ _ Hlog).
    eapply persisted_first_prefix; [exact Hpre | apply persisted_first_complete].
  - intros c fee orderId Hc Hfee Hid.
    destruct (handlePlaceOrder_snapshot details paymentId P w c fee orderId Hc Hfee Hid)
      as (o' & Hlog' & _ & Hat & _).
    pose proof (handlePlaceOrder_run details paymentId P w c fee orderId Hc Hfee Hid)
      as Hrun. cbv zeta in Hrun.
    assert (Ho : o' = fresh (dom (heap w))).
    { symmetry. apply Hlog'. rewrite Hrun.
      destruct (Store_saveOrder P) as [[]|];
        [destruct (Store_saveLastOrder P) as [[]|];
         [destruct (encodeURIComponent _)|]|];
        simpl; erewrite new_events_app by reflexivity;
        unfold placeOrder_events; rewrite !elem_of_cons; auto. }
    subst o'. exists (fresh (dom (heap w))). split; [exact Hat|].
    subst events placed. rewrite Hrun.
    destruct (Store_saveOrder P) as [[]|];
      [destruct (Store_saveLastOrder P) as [[]|];
       [destruct (encodeURIComponent _)|]|];
      simpl; erewrite new_events_app by reflexivity;
      unfold placeOrder_events, events_to_success;
      (split; [eexists; reflexivity|]);
      (split; [intros Hs; first [discriminate Hs | eexists; reflexivity]|]);
      intros Hs Hl; try discriminate Hs; try discriminate Hl;
      eexists; (split; [eexists; reflexivity|]);
      (split; [reflexivity|]); (split; [|reflexivity]);
      unfold cart_contents; now rewrite lookup_insert_eq.
Qed.

(** The [items] of that order is the reference the state variable [cart]
    held at submission (line 205): the order shares the array with the cart
    of that moment and owes its stability to the handlers, which build new
    arrays and objects and never write to existing ones. *)
Remark order_items_is_the_cart_array details paymentId P w c fee orderId :
  cart_contents (heap w) (cart w) = Some c ->
  Store_getDeliveryFee P = Returns fee ->
  Store_generateOrderId P = Returns orderId ->
  let placed := snd (App.handlePlaceOrder details paymentId P w) in
  exists o x,
    EvSaveOrder o ∈ new_events w placed
    /\ heap placed !! o = Some (Ord x)
    /\ Order.items x = cart w.
Proof.
  intros Hc Hfee Hid placed.
  destruct (handlePlaceOrder_snapshot details paymentId P w c fee orderId Hc Hfee Hid)
    as (o & Hlog & Hx & _).
  exists o, (order_of P orderId (cart w) c fee details paymentId).
  split; [now apply Hlog|]. split; [exact Hx | reflexivity].
Qed.

(** C1: for a cart [c] and a delivery fee, the total the checkout view
    displays and the [totalAmount] of the order that [handlePlaceOrder]
    hands to the store are the same number: the sum of [price * quantity]
    over the entries, plus 5, plus the delivery fee, plus
    [Math.round(itemTotal * 0.05)]. *)
Theorem checkout_total_is_order_total details paymentId P1 P2 w1 w2 c fee orderId :
  cart_contents (heap w1) (cart w1) = Some c ->
  cart_contents (heap w2) (cart w2) = Some c ->
  Store_getDeliveryFee P1 = Returns fee ->
  Store_getDeliveryFee P2 = Returns fee ->
  Store_generateOrderId P2 = Returns orderId ->
  let itemTotal := sum_price_quantity c in
  let finalTotal :=
    itemTotal + 5 + fee + Math_round (inject_Z itemTotal * (5 # 100))%Q in
  let placed := snd (App.handlePlaceOrder details paymentId P2 w2) in
  fst (App.render_CHECKOUT P1 w1) = Ok finalTotal
  /\ exists o x,
       (forall o', EvSaveOrder o' ∈ new_events w2 placed <-> o' = o)
       /\ heap placed !! o = Some (Ord x)
       /\ Order.totalAmount x = finalTotal.
Proof.
  intros Hc1 Hc2 Hfee1 Hfee2 Hid itemTotal finalTotal placed. split.
  - unfold App.render_CHECKOUT. rewrite bind_get_cart_eq.
    rewrite (bind_Ok _ _ _ _ _ _ (Array_reduce_Ok _ 0 P1 w1 (cart w1) c Hc1)).
    rewrite fold_left_price_quantity, Z.add_0_l, bind_call_eq, Hfee1. reflexivity.
  - destruct (handlePlaceOrder_snapshot details paymentId P2 w2 c fee orderId Hc2 Hfee2 Hid)
      as (o & Hlog & Hx & _).
    exists o, (order_of P2 orderId (cart w2) c fee details paymentId). auto.
Qed.


(** C3: the order [handlePlaceOrder] hands to the store denotes the cart as
    it was at submission, with the fields of lines 203-211; after the run,
    and after any further sequence of [addToCart], [updateCartQuantity] and
    clearings of the cart, it denotes the same order and the same items. *)
Theorem order_is_a_snapshot details paymentId P w c fee orderId
    (ops : list cart_op) (P' : Platform) :
  cart_contents (heap w) (cart w) = Some c ->
  Store_getDeliveryFee P = Returns fee ->
  Store_generateOrderId P = Returns orderId ->
  let placed := snd (App.handlePlaceOrder details paymentId P w) in
  exists o x,
    EvSaveOrder o ∈ new_events w placed
    /\ order_at (heap placed) o = Some (x, c)
    /\ exists later,
         run_ops ops P' placed = (Ok tt, later)
         /\ order_at (heap later) o = Some (x, c).
Proof.
  intros Hc Hfee Hid placed.
  destruct (handlePlaceOrder_snapshot details paymentId P w c fee orderId Hc Hfee Hid)
    as (o & Hlog & Hx & Hat & Hwf).
  exists o, (order_of P orderId (cart w) c fee details paymentId).
  split; [now apply Hlog|]. split; [exact Hat|].
  destruct (run_ops_Ok ops P' placed Hwf) as (later & Hrun & _ & Hsub).
  exists later. split; [exact Hrun|]. eapply order_at_mono; eauto.
Qed.

End PlaceOrderProperties.

(** ** The realtime status watcher and the notification ids *)

Section Notifications.

Implicit Types (w : World) (P : Platform).

Lemma triggerStatusNotification_eq (order : Row.t) P w :
  not_awaited (App.triggerStatusNotification order) P w =
    (Ok tt,
     match LocalNotifications_schedule P with
     | Returns _ =>
         logged (EvHaptics Success)
           (logged (EvSchedule [status_notification P (Row.status order)]) w)
     | Throws => logged (EvSchedule [status_notification P (Row.status order)]) w
     end).
Proof.
  unfold not_awaited at 1, try_catch, App.triggerStatusNotification, status_notification.
  destruct (App.status_text (Row.status order)) as [title body]; simpl.
  rewrite !bind_ask_eq, bind_call_eq.
  destruct (LocalNotifications_schedule P) as [[]|]; [|reflexivity].
  unfold not_awaited. now rewrite try_call_eq.
Qed.

Lemma scheduled_triggerStatusNotification (order : Row.t) P w :
  scheduled (new_events w (snd (not_awaited (App.triggerStatusNotification order) P w)))
  = [status_notification P (Row.status order)].
Proof.
  rewrite triggerStatusNotification_eq. simpl.
  destruct (LocalNotifications_schedule P); unfold logged; simpl.
  - erewrite new_events_app by (simpl; rewrite <- app_assoc; reflexivity). reflexivity.
  - erewrite new_events_app by reflexivity. reflexivity.
Qed.

Lemma scheduled_nonempty (evs : list Event) :
  scheduled evs <> [] -> exists ns, EvSchedule ns ∈ evs.
Proof.
  induction evs as [|ev evs IH]; simpl; [congruence|]. intros Hne.
  destruct ev; try (destruct (IH Hne) as [ns Hns]; exists ns; now right).
  eexists. left.
Qed.

Lemma elem_of_scheduled (evs : list Event) n :
  n ∈ scheduled evs <-> exists ns, EvSchedule ns ∈ evs /\ n ∈ ns.
Proof.
  unfold scheduled. rewrite list_elem_of_In, in_flat_map. split.
  - intros (ev & Hev & Hn). destruct ev; try contradiction.
    eexists. split; apply list_elem_of_In; eauto.
  - intros (ns & Hns & Hn). exists (EvSchedule ns).
    split; apply list_elem_of_In; auto.
Qed.

Lemma new_events_same w : new_events w w = [].
Proof. unfold new_events. apply drop_all. Qed.

(** What an update event schedules: the notification of the new status when
    the order is the user's and the status changed, nothing otherwise. *)
Lemma scheduled_on_orders_UPDATE user (newOrder oldOrder : Row.t) P w :
  let w' := snd (App.on_orders_UPDATE user newOrder oldOrder P w) in
  (own_order user newOrder /\ Row.status newOrder <> Row.status oldOrder
   /\ scheduled (new_events w w') = [status_notification P (Row.status newOrder)])
  \/ (~ (own_order user newOrder /\ Row.status newOrder <> Row.status oldOrder)
      /\ new_events w w' = []).
Proof.
  unfold App.on_orders_UPDATE, own_order.
  destruct (Row.userDetails newOrder) as [details|].
  - destruct (String.eqb (UserDetails.phone details) (UserProfile.phone user)) eqn:Ephone.
    + apply String.eqb_eq in Ephone.
      destruct (String.eqb (Row.status newOrder) (Row.status oldOrder)) eqn:Estatus; simpl.
      * apply String.eqb_eq in Estatus. right. rewrite new_events_same. tauto.
      * apply String.eqb_neq in Estatus. left.
        repeat split; eauto. apply scheduled_triggerStatusNotification.
    + apply String.eqb_neq in Ephone. right. simpl. rewrite new_events_same.
      split; [|reflexivity]. intros [(d & [= <-] & Hd) _]. contradiction.
  - right. simpl. rewrite new_events_same.
    split; [|reflexivity]. intros [(d & Hd & _) _]. discriminate.
Qed.

(** C2: while a user is logged in, an update event has a notification
    scheduled exactly when the new row embeds the phone of the user and its
    status differs from the old one; then exactly one notification is
    scheduled, titled by the new status: the three titles of CONFIRMED,
    DELIVERED and CANCELLED, and for any other status the generic title with
    the body naming the status. *)
Theorem status_notification_dispatch user (newOrder oldOrder : Row.t) P w :
  let w' := snd (App.realtime_event (Some user) newOrder oldOrder P w) in
  let status := Row.status newOrder in
  ((exists ns, EvSchedule ns ∈ new_events w w')
     <-> own_order user newOrder /\ status <> Row.status oldOrder)
  /\ (own_order user newOrder /\ status <> Row.status oldOrder ->
      exists n,
        scheduled (new_events w w') = [n]
        /\ (status = OrderStatus.CONFIRMED -> Notification.title n = "Order Confirmed! 🍳")
        /\ (status = OrderStatus.DELIVERED -> Notification.title n = "Order Delivered! 😋")
        /\ (status = OrderStatus.CANCELLED -> Notification.title n = "Order Cancelled ❌")
        /\ (status <> OrderStatus.CONFIRMED -> status <> OrderStatus.DELIVERED ->
            status <> OrderStatus.CANCELLED ->
            Notification.title n = "Order Update"
            /\ Notification.body n
               = String.append "Your order status has changed to " status)).
Proof.
  simpl.
  destruct (scheduled_on_orders_UPDATE user newOrder oldOrder P w)
    as [(Hown & Hchanged & Hsched) | (Hnot & Hnone)].
  - split.
    + split; [auto|]. intros _. apply scheduled_nonempty. now rewrite Hsched.
    + intros _. eexists. split; [exact Hsched|].
      unfold status_notification, App.status_text; simpl.
      split; [now intros -> |]. split; [now intros -> |]. split; [now intros -> |].
      intros H1 H2 H3. apply String.eqb_neq in H1, H2, H3. now rewrite H1, H2, H3.
  - split; [|tauto]. split; [|tauto].
    intros [ns Hns]. rewrite Hnone in Hns. now apply elem_of_nil in Hns.
Qed.

Lemma random_id_range (r : Q) :
  (0 <= r)%Q -> (r < 1)%Q -> 0 <= Math_floor (r * inject_Z 100000)%Q < 100000.
Proof.
  intros H0 H1. unfold Math_floor. split.
  - change 0 with (Qfloor (inject_Z 0)). apply Qfloor_resp_le.
    change (inject_Z 0) with (0 * inject_Z 100000)%Q.
    apply Qmult_le_compat_r; [exact H0 | discriminate].
  - rewrite Zlt_Qlt. eapply Qle_lt_trans; [apply Qfloor_le|].
    apply Qlt_le_trans with (1 * inject_Z 100000)%Q.
    + apply Qmult_lt_compat_r; [reflexivity | exact H1].
    + unfold Qle; simpl; lia.
Qed.

(** C8, as the code has it: a notification scheduled by [handlePlaceOrder]
    is the re-engagement notification and always carries the id 999, due 48
    hours after the call; a notification scheduled for a status change
    carries the id [Math.floor(Math.random() * 100000)], an integer from 0 to
    99999, due 100 ms after the call. *)
Theorem notification_ids details paymentId user (newOrder oldOrder : Row.t) P w :
  (0 <= Math_random P)%Q -> (Math_random P < 1)%Q ->
  (forall n,
     n ∈ scheduled (new_events w (snd (App.handlePlaceOrder details paymentId P w))) ->
     Notification.id n = 999 /\ Notification.at_ n = Date_now P + 172800000)
  /\ (forall n,
        n ∈ scheduled
              (new_events w (snd (App.realtime_event user newOrder oldOrder P w))) ->
        Notification.id n = Math_floor (Math_random P * inject_Z 100000)%Q
        /\ 0 <= Notification.id n < 100000
        /\ Notification.at_ n = Date_now P + 100).
Proof.
  intros H0 H1. split.
  - intros n Hn.
    destruct (handlePlaceOrder_events details paymentId P w)
      as (o & e & u & evs & Hlog & [rest Hfull]).
    rewrite (new_events_app _ _ _ Hlog) in Hn.
    apply elem_of_scheduled in Hn as (ns & Hns & Hn).
    assert (Hin : EvSchedule ns ∈ placeOrder_events P o (cart w) e u).
    { rewrite Hfull. apply elem_of_app. now left. }
    unfold placeOrder_events in Hin. rewrite !elem_of_cons, elem_of_nil in Hin.
    destruct Hin as [H|[H|[H|[H|[H|[H|[H|[H|[H|[]]]]]]]]]]; inversion H; subst ns.
    apply list_elem_of_singleton in Hn as ->. split; reflexivity.
  - intros n Hn. destruct user as [user|]; simpl in Hn.
    + destruct (scheduled_on_orders_UPDATE user newOrder oldOrder P w)
        as [(_ & _ & Hsched) | (_ & Hnone)]; simpl in *.
      * rewrite Hsched in Hn. apply list_elem_of_singleton in Hn as ->. simpl.
        split; [reflexivity|]. split; [now apply random_id_range | reflexivity].
      * rewrite Hnone in Hn. now apply elem_of_nil in Hn.
    + rewrite new_events_same in Hn. now apply elem_of_nil in Hn.
Qed.

End Notifications.

(** C8 does not hold as stated.  Two orders placed an hour apart: the second
    re-engagement notification is scheduled under the id 999 while the
    first, due 47 hours later, is still pending under the same id. *)
Lemma reengagement_ids_collide :
  wf initial_world
  /\ history two_orders initial_world =
       [ (0, App.miss_you 0); (3600000, App.miss_you 3600000) ]
  /\ unique_when_scheduled [] (history two_orders initial_world) = false.
Proof.
  split; [|split].
  - exists []. reflexivity.
  - vm_compute. reflexivity.
  - vm_compute. reflexivity.
Qed.

(** ** The properties at concrete inputs *)

(** The example of the specification: two idlis at 100 and a delivery fee of
    20 make 235, on the checkout view and in the order. *)
Lemma checkout_total_is_order_total_witness :
  cart_contents (heap two_idlis) (cart two_idlis) = Some [CartItem.mk idli 2]
  /\ Store_getDeliveryFee (obliging 0) = Returns 20
  /\ Store_generateOrderId (obliging 5000) = Returns "ORD-1001"
  /\ fst (App.render_CHECKOUT (obliging 0) two_idlis) = Ok 235
  /\ exists o x,
       (forall o', EvSaveOrder o' ∈
                     new_events two_idlis
                       (snd (App.handlePlaceOrder customer "pay_1" (obliging 5000) two_idlis))
                   <-> o' = o)
       /\ heap (snd (App.handlePlaceOrder customer "pay_1" (obliging 5000) two_idlis)) !! o
          = Some (Ord x)
       /\ Order.totalAmount x = 235.
Proof.
  assert (Hc : cart_contents (heap two_idlis) (cart two_idlis) = Some [CartItem.mk idli 2])
    by reflexivity.
  split; [exact Hc|]. split; [reflexivity|]. split; [reflexivity|].
  exact (checkout_total_is_order_total customer "pay_1" (obliging 0) (obliging 5000)
           two_idlis two_idlis [CartItem.mk idli 2] 20 "ORD-1001"
           Hc Hc eq_refl eq_refl eq_refl).
Defined.

(** The order of two idlis, after the cart is cleared, refilled and emptied
    again. *)
Lemma order_is_a_snapshot_witness :
  cart_contents (heap two_idlis) (cart two_idlis) = Some [CartItem.mk idli 2]
  /\ let placed := snd (App.handlePlaceOrder customer "pay_1" (obliging 0) two_idlis) in
     exists o x,
       EvSaveOrder o ∈ new_events two_idlis placed
       /\ order_at (heap placed) o = Some (x, [CartItem.mk idli 2])
       /\ exists later,
            run_ops [Clear; Add idli; Add idli; Update "A" (-5)] (obliging 60000) placed
              = (Ok tt, later)
            /\ order_at (heap later) o = Some (x, [CartItem.mk idli 2]).
Proof.
  assert (Hc : cart_contents (heap two_idlis) (cart two_idlis) = Some [CartItem.mk idli 2])
    by reflexivity.
  split; [exact Hc|].
  exact (order_is_a_snapshot customer "pay_1" (obliging 0) two_idlis [CartItem.mk idli 2]
           20 "ORD-1001" [Clear; Add idli; Add idli; Update "A" (-5)] (obliging 60000)
           Hc eq_refl eq_refl).
Defined.

(** Taking one of two idlis out, and taking three out. *)
Lemma updateCartQuantity_clamps_and_removes_witness :
  positive_quantities [CartItem.mk idli 2]
  /\ updateCartQuantity "A" (-1) [CartItem.mk idli 2] = [CartItem.mk idli 1]
  /\ updateCartQuantity "A" (-3) [CartItem.mk idli 2] = [].
Proof.
  assert (Hpos : positive_quantities [CartItem.mk idli 2]).
  { constructor; [simpl; lia | constructor]. }
  split; [exact Hpos|]. split.
  - exact (proj1 (updateCartQuantity_clamps_and_removes "A" (-1) [CartItem.mk idli 2] Hpos)).
  - exact (proj1 (updateCartQuantity_clamps_and_removes "A" (-3) [CartItem.mk idli 2] Hpos)).
Defined.

(** An order of two idlis: the store is handed the order, then the cart;
    after that the cart is cleared and the success view is shown. *)
Lemma persistence_precedes_clearing_witness :
  cart_contents (heap two_idlis) (cart two_idlis) = Some [CartItem.mk idli 2]
  /\ Store_saveOrder (obliging 0) = Returns tt
  /\ Store_saveLastOrder (obliging 0) = Returns tt
  /\ exists o e,
       order_at (heap (snd (App.handlePlaceOrder customer "pay_1" (obliging 0) two_idlis))) o
       = Some (order_of (obliging 0) "ORD-1001" (cart two_idlis) [CartItem.mk idli 2] 20
                 customer "pay_1", [CartItem.mk idli 2])
       /\ [ EvGetDeliveryFee; EvGenerateOrderId; EvSaveOrder o;
            EvSaveLastOrder (cart two_idlis);
            EvHaptics Success; EvSchedule [App.miss_you 0];
            EvSetCart e; EvSetView SUCCESS ]
          `prefix_of` new_events two_idlis
                        (snd (App.handlePlaceOrder customer "pay_1" (obliging 0) two_idlis))
       /\ cart (snd (App.handlePlaceOrder customer "pay_1" (obliging 0) two_idlis)) = e
       /\ view (snd (App.handlePlaceOrder customer "pay_1" (obliging 0) two_idlis))
          = SUCCESS.
Proof.
  assert (Hc : cart_contents (heap two_idlis) (cart two_idlis) = Some [CartItem.mk idli 2])
    by reflexivity.
  split; [exact Hc|]. split; [reflexivity|]. split; [reflexivity|].
  destruct (proj2 (persistence_precedes_clearing customer "pay_1" (obliging 0) two_idlis)
              [CartItem.mk idli 2] 20 "ORD-1001" Hc eq_refl eq_refl)
    as (o & Hat & _ & _ & Hall).
  destruct (Hall eq_refl eq_refl) as (e & Hpre & Hcart & _ & Hview).
  exists o, e. split; [exact Hat|]. split; [exact Hpre|]. split; [exact Hcart | exact Hview].
Defined.



(** With [Math.random()] at one third, a status change is notified under
    the id 33333. *)
Lemma notification_ids_witness :
  (0 <= Math_random (obliging 0))%Q /\ (Math_random (obliging 0) < 1)%Q
  /\ (forall n,
        n ∈ scheduled (new_events two_idlis
                         (snd (App.handlePlaceOrder customer "pay_1" (obliging 0) two_idlis))) ->
        Notification.id n = 999 /\ Notification.at_ n = 172800000)
  /\ (forall n,
        n ∈ scheduled
              (new_events two_idlis
                 (snd (App.realtime_event
                         (Some (UserProfile.mk "Asha" "9000000001"))
                         (Row.mk (Some customer) OrderStatus.CONFIRMED)
                         (Row.mk (Some customer) OrderStatus.PENDING)
                         (obliging 0) two_idlis))) ->
        Notification.id n = 33333
        /\ 0 <= Notification.id n < 100000
        /\ Notification.at_ n = 100).
Proof.
  assert (H0 : (0 <= Math_random (obliging 0))%Q) by (unfold Qle; simpl; lia).
  assert (H1 : (Math_random (obliging 0) < 1)%Q) by (unfold Qlt; simpl; lia).
  split; [exact H0|]. split; [exact H1|].
  exact (notification_ids customer "pay_1" (Some (UserProfile.mk "Asha" "9000000001"))
           (Row.mk (Some customer) OrderStatus.CONFIRMED)
           (Row.mk (Some customer) OrderStatus.PENDING)
           (obliging 0) two_idlis H0 H1).
Defined.

(** Adding a dosa to, and taking the idlis out of, a cart of idlis and
    vadas. *)
Lemma cart_operations_frame_witness :
  let vada := MenuItem.mk "B" "Vada" 40 in
  let dosa := MenuItem.mk "C" "Dosa" 80 in
  let cart := [CartItem.mk idli 2; CartItem.mk vada 1] in
  positive_quantities cart
  /\ others "C" (addToCart dosa cart) = cart
  /\ others "A" (updateCartQuantity "A" (-2) cart) = [CartItem.mk vada 1]
  /\ List.map CartItem.menuItem (updateCartQuantity "A" (-2) cart)
       `sublist_of` [idli; vada].
Proof.
  intros vada dosa cart.
  assert (Hpos : positive_quantities cart).
  { repeat constructor; simpl; lia. }
  split; [exact Hpos|].
  destruct (cart_operations_frame dosa "A" (-2) cart Hpos) as (Hadd & _ & Hupd & Hsub).
  split; [exact Hadd|]. split; [exact Hupd | exact Hsub].
Defined.

(** * Further properties *)

(** ** Counting and pricing the cart *)

Section CartArithmetic.

Implicit Types (item : MenuItem.t) (i j : CartItem.t) (cart pre post : list CartItem.t).

Lemma fold_left_quantity cart (acc : Z) :
  fold_left (fun a (i : CartItem.t) => a + CartItem.quantity i) cart acc
  = acc + sum_quantity cart.
Proof.
  revert acc. induction cart as [|i cart IH]; intros acc; simpl; [lia|].
  rewrite IH. lia.
Qed.

Lemma cartItemCount_sum cart : cartItemCount cart = sum_quantity cart.
Proof. unfold cartItemCount. rewrite fold_left_quantity. lia. Qed.

Lemma itemTotal_sum cart : itemTotal cart = sum_price_quantity cart.
Proof. unfold itemTotal. rewrite fold_left_price_quantity. lia. Qed.

Lemma sum_quantity_app c1 c2 : sum_quantity (c1 ++ c2) = sum_quantity c1 + sum_quantity c2.
Proof. induction c1 as [|i c1 IH]; simpl; lia. Qed.

Lemma sum_price_quantity_app c1 c2 :
  sum_price_quantity (c1 ++ c2) = sum_price_quantity c1 + sum_price_quantity c2.
Proof. induction c1 as [|i c1 IH]; simpl; lia. Qed.

Lemma bumped_absent itemId cart :
  (forall i, i ∈ cart -> MenuItem.id i <> itemId) ->
  List.map (bumped itemId) cart = cart.
Proof.
  induction cart as [|j cart IH]; intros Habs; simpl; [reflexivity|].
  rewrite IH by (intros i Hi; apply Habs; now right).
  unfold bumped. assert (Hj : MenuItem.id j <> itemId) by (apply Habs; left).
  apply String.eqb_neq in Hj. now rewrite Hj.
Qed.

(** A cart with pairwise distinct ids splits around its entry with a given
    id; no other entry has that id. *)
Lemma distinct_ids_split cart i :
  NoDup (ids cart) -> i ∈ cart ->
  exists pre post,
    cart = pre ++ i :: post
    /\ (forall j, j ∈ pre -> MenuItem.id j <> MenuItem.id i)
    /\ (forall j, j ∈ post -> MenuItem.id j <> MenuItem.id i).
Proof.
  intros Hnd Hin. apply list_elem_of_split in Hin as (pre & post & ->).
  exists pre, post. split; [reflexivity|].
  unfold ids in Hnd. rewrite List.map_app in Hnd. simpl in Hnd.
  apply NoDup_app in Hnd as (_ & Hpre & Hpost).
  apply NoDup_cons in Hpost as (Hpost & _).
  split; intros j Hj Heq.
  - apply (Hpre (MenuItem.id j)).
    + apply list_elem_of_In, in_map_iff. exists j. split; [reflexivity|].
      now apply list_elem_of_In.
    + rewrite Heq. left.
  - apply Hpost. rewrite <- Heq.
    apply list_elem_of_In, in_map_iff. exists j. split; [reflexivity|].
    now apply list_elem_of_In.
Qed.

(** The cart after [addToCart], for a cart with pairwise distinct ids. *)
Lemma addToCart_split item pre i post :
  MenuItem.id i = MenuItem.id item ->
  (forall j, j ∈ pre -> MenuItem.id j <> MenuItem.id item) ->
  (forall j, j ∈ post -> MenuItem.id j <> MenuItem.id item) ->
  addToCart item (pre ++ i :: post)
  = pre ++ CartItem.mk i (CartItem.quantity i + 1) :: post.
Proof.
  intros Hid Hpre Hpost.
  rewrite (addToCart_present item (pre ++ i :: post) i);
    [|apply elem_of_app; right; left | exact Hid].
  rewrite List.map_app. simpl.
  rewrite !bumped_absent by assumption.
  unfold bumped. apply String.eqb_eq in Hid. now rewrite Hid.
Qed.

(** X1: on a cart with pairwise distinct ids, every [addToCart] raises the
    count shown on the cart icon by exactly one. *)
Theorem addToCart_counts_one item cart :
  NoDup (ids cart) ->
  cartItemCount (addToCart item cart) = cartItemCount cart + 1.
Proof.
  intros Hnd. rewrite !cartItemCount_sum.
  destruct (List.find (same_id (MenuItem.id item)) cart) as [i|] eqn:E.
  - apply find_some in E as [Hin Hid].
    apply list_elem_of_In in Hin. apply same_id_true in Hid.
    destruct (distinct_ids_split cart i Hnd Hin) as (pre & post & -> & Hpre & Hpost).
    rewrite Hid in Hpre, Hpost.
    rewrite (addToCart_split item pre i post Hid Hpre Hpost).
    rewrite !sum_quantity_app. simpl. lia.
  - rewrite addToCart_absent.
    + rewrite sum_quantity_app. simpl. lia.
    + intros i Hi. apply same_id_false. apply (find_none _ _ E).
      now apply list_elem_of_In.
Qed.

(** The cart after [updateCartQuantity], for a cart of positive quantities
    with pairwise distinct ids. *)
Lemma updateCartQuantity_split itemId delta pre i post :
  positive_quantities (pre ++ i :: post) ->
  MenuItem.id i = itemId ->
  (forall j, j ∈ pre -> MenuItem.id j <> itemId) ->
  (forall j, j ∈ post -> MenuItem.id j <> itemId) ->
  updateCartQuantity itemId delta (pre ++ i :: post)
  = pre ++ (if Z.max 0 (CartItem.quantity i + delta) =? 0 then []
            else [CartItem.mk i (Z.max 0 (CartItem.quantity i + delta))]) ++ post.
Proof.
  intros Hpos Hid Hpre Hpost.
  rewrite updateCartQuantity_flat_map by assumption.
  rewrite List.flat_map_app. simpl.
  rewrite !flat_map_adjusted_absent by assumption.
  unfold adjusted. apply String.eqb_eq in Hid. now rewrite Hid.
Qed.

(** X2: on a cart of positive quantities, taking one out right after adding
    one gives the cart back, entry for entry: [updateCartQuantity(id, -1)]
    undoes [addToCart]. *)
Theorem decrement_undoes_addToCart item cart :
  positive_quantities cart ->
  updateCartQuantity (MenuItem.id item) (-1) (addToCart item cart) = cart.
Proof.
  intros Hpos.
  rewrite updateCartQuantity_flat_map by now apply addToCart_positive.
  unfold addToCart. destruct (List.find _ cart) as [found|] eqn:E.
  - clear E. induction Hpos as [|i cart Hi _ IH]; [reflexivity|]. simpl.
    rewrite IH. unfold adjusted, same_id.
    destruct i as [m q]. simpl in *.
    destruct (String.eqb (MenuItem.id m) (MenuItem.id item)) eqn:Eid; simpl.
    + rewrite Eid. replace (Z.max 0 (q + 1 + -1)) with q by lia.
      replace (q =? 0) with false by (symmetry; lia). reflexivity.
    + now rewrite Eid.
  - rewrite List.flat_map_app. simpl.
    rewrite flat_map_adjusted_absent.
    + unfold adjusted. simpl. rewrite String.eqb_refl. simpl. now rewrite !app_nil_r.
    + intros i Hi. apply same_id_false. apply (find_none _ _ E).
      now apply list_elem_of_In.
Qed.

Lemma adjusted_twice itemId d1 d2 i :
  0 < CartItem.quantity i -> 0 <= d1 \/ d2 <= 0 ->
  List.flat_map (adjusted itemId d2) (adjusted itemId d1 i) = adjusted itemId (d1 + d2) i.
Proof.
  intros Hq Hd. unfold adjusted. destruct i as [m q]. simpl in *.
  destruct (String.eqb (MenuItem.id m) itemId) eqn:Eid; simpl.
  - destruct (Z.max 0 (q + d1) =? 0) eqn:E1; simpl.
    + apply Z.eqb_eq in E1.
      replace (Z.max 0 (q + (d1 + d2)) =? 0) with true by (symmetry; lia). reflexivity.
    + apply Z.eqb_neq in E1. rewrite Eid.
      replace (Z.max 0 (q + d1) + d2) with (q + (d1 + d2)) by lia.
      now rewrite app_nil_r.
  - now rewrite Eid.
Qed.

(** X3: on a cart of positive quantities, two quantity updates of one id in
    a row are one update by the sum of the deltas, provided the first does
    not take out or the second does not put in. *)
Theorem updateCartQuantity_composes itemId d1 d2 cart :
  positive_quantities cart -> 0 <= d1 \/ d2 <= 0 ->
  updateCartQuantity itemId d2 (updateCartQuantity itemId d1 cart)
  = updateCartQuantity itemId (d1 + d2) cart.
Proof.
  intros Hpos Hd.
  rewrite (updateCartQuantity_flat_map itemId d2)
    by apply updateCartQuantity_positive.
  rewrite !updateCartQuantity_flat_map by assumption.
  induction Hpos as [|i cart Hi _ IH]; [reflexivity|]. simpl.
  rewrite List.flat_map_app, IH. now rewrite adjusted_twice.
Qed.

(** X4: on a cart of positive quantities with pairwise distinct ids, a
    quantity update of an entry changes the count on the cart icon by the
    delta, but by no more than the quantity the entry had. *)
Theorem updateCartQuantity_count delta cart i :
  positive_quantities cart -> NoDup (ids cart) -> i ∈ cart ->
  cartItemCount (updateCartQuantity (MenuItem.id i) delta cart)
  = cartItemCount cart + Z.max (- CartItem.quantity i) delta.
Proof.
  intros Hpos Hnd Hin. rewrite !cartItemCount_sum.
  destruct (distinct_ids_split cart i Hnd Hin) as (pre & post & -> & Hpre & Hpost).
  rewrite (updateCartQuantity_split _ delta pre i post Hpos eq_refl Hpre Hpost).
  rewrite !sum_quantity_app.
  destruct (Z.max 0 (CartItem.quantity i + delta) =? 0) eqn:E; simpl.
  - apply Z.eqb_eq in E. lia.
  - apply Z.eqb_neq in E. lia.
Qed.

(** X5: on a cart with pairwise distinct ids, [addToCart] of an item whose
    id is in the cart raises the item total by the price the cart entry
    carries, whatever price the added item carries; for a new id it raises
    it by the price of the item. *)
Theorem addToCart_itemTotal item cart :
  NoDup (ids cart) ->
  (forall i, i ∈ cart -> MenuItem.id i = MenuItem.id item ->
     itemTotal (addToCart item cart) = itemTotal cart + MenuItem.price i)
  /\ ((forall i, i ∈ cart -> MenuItem.id i <> MenuItem.id item) ->
      itemTotal (addToCart item cart) = itemTotal cart + MenuItem.price item).
Proof.
  intros Hnd. rewrite !itemTotal_sum. split.
  - intros i Hin Hid.
    destruct (distinct_ids_split cart i Hnd Hin) as (pre & post & -> & Hpre & Hpost).
    rewrite Hid in Hpre, Hpost.
    rewrite (addToCart_split item pre i post Hid Hpre Hpost).
    rewrite !sum_price_quantity_app. simpl. lia.
  - intros Habs. rewrite addToCart_absent by assumption.
    rewrite sum_price_quantity_app. simpl. lia.
Qed.

End CartArithmetic.

(** ** Carts the handlers build *)

Section ReachableCarts.

Implicit Types (w : World) (P : Platform) (c : list CartItem.t).

Lemma apply_op_invariant op c :
  positive_quantities c /\ NoDup (ids c) ->
  positive_quantities (apply_op op c) /\ NoDup (ids (apply_op op c)).
Proof.
  intros [Hpos Hnd]. destruct op as [item|itemId delta|]; simpl.
  - split; [now apply addToCart_positive | now apply addToCart_distinct_ids].
  - split; [apply updateCartQuantity_positive
           | now apply updateCartQuantity_distinct_ids].
  - split; constructor.
Qed.

Lemma run_op_refines op P w c :
  cart_contents (heap w) (cart w) = Some c ->
  exists w', run_op op P w = (Ok tt, w')
             /\ cart_contents (heap w') (cart w') = Some (apply_op op c).
Proof.
  intros Hc. destruct op as [item|itemId delta|]; simpl.
  - destruct (App_addToCart_refines item P w c Hc) as (w' & Hrun & Hc' & _). eauto.
  - destruct (App_updateCartQuantity_refines itemId delta P w c Hc)
      as (w' & Hrun & Hc' & _). eauto.
  - destruct (clear_Ok P w) as (w' & Hrun & Hc' & _). eauto.
Qed.

Lemma run_ops_refines ops P w c :
  cart_contents (heap w) (cart w) = Some c ->
  exists w', run_ops ops P w = (Ok tt, w')
             /\ cart_contents (heap w') (cart w') = Some (apply_ops ops c).
Proof.
  revert w c. induction ops as [|op ops IH]; intros w c Hc; simpl.
  - exists w. auto.
  - destruct (run_op_refines op P w c Hc) as (w1 & Hrun1 & Hc1).
    destruct (IH w1 _ Hc1) as (w2 & Hrun2 & Hc2).
    exists w2. rewrite (bind_Ok _ _ _ _ _ _ Hrun1). auto.
Qed.

Lemma apply_ops_invariant ops c :
  positive_quantities c /\ NoDup (ids c) ->
  positive_quantities (apply_ops ops c) /\ NoDup (ids (apply_ops ops c)).
Proof.
  revert c. induction ops as [|op ops IH]; intros c Hc; [exact Hc|].
  simpl. apply IH. now apply apply_op_invariant.
Qed.

Lemma badge_shown_nonempty c :
  positive_quantities c -> badge_shown c = true <-> c <> [].
Proof.
  intros Hpos. unfold badge_shown. rewrite cartItemCount_sum, Z.ltb_lt.
  destruct Hpos as [|i c Hi Hc]; simpl.
  - split; [lia | congruence].
  - split; [discriminate|]. intros _.
    assert (0 <= sum_quantity c); [|lia].
    clear Hi. induction Hc as [|j c Hj _ IH]; simpl; lia.
Qed.

(** X6: whatever sequence of [addToCart], [updateCartQuantity] and clearings
    runs on the cart of a freshly mounted component, no handler gets stuck,
    and the cart ends with positive quantities and pairwise distinct ids;
    the badge of the cart icon is shown exactly when the cart is not
    empty. *)
Theorem carts_stay_positive_and_distinct (ops : list cart_op) P :
  exists w' c,
    run_ops ops P initial_world = (Ok tt, w')
    /\ cart_contents (heap w') (cart w') = Some c
    /\ c = apply_ops ops []
    /\ positive_quantities c
    /\ NoDup (ids c)
    /\ (badge_shown c = true <-> c <> []).
Proof.
  assert (H0 : cart_contents (heap initial_world) (cart initial_world) = Some [])
    by reflexivity.
  destruct (run_ops_refines ops P initial_world [] H0) as (w' & Hrun & Hc).
  assert (Hinv : positive_quantities (apply_ops ops []) /\ NoDup (ids (apply_ops ops []))).
  { apply apply_ops_invariant. split; constructor. }
  exists w', (apply_ops ops []). destruct Hinv as [Hpos Hnd].
  repeat split; auto; now apply badge_shown_nonempty.
Qed.

End ReachableCarts.

(** ** Pricing and order submission, further *)

Section Submission.

Implicit Types (w : World) (P : Platform) (c : list CartItem.t).

Lemma render_CHECKOUT_Ok P w c fee :
  cart_contents (heap w) (cart w) = Some c ->
  Store_getDeliveryFee P = Returns fee ->
  App.render_CHECKOUT P w = (Ok (finalTotal_of c fee), logged EvGetDeliveryFee w).
Proof.
  intros Hc Hfee. unfold App.render_CHECKOUT. rewrite bind_get_cart_eq.
  rewrite (bind_Ok _ _ _ _ _ _ (Array_reduce_Ok _ 0 P w (cart w) c Hc)).
  rewrite fold_left_price_quantity, Z.add_0_l, bind_call_eq, Hfee. reflexivity.
Qed.

Lemma finalTotal_of_closed_form c fee :
  finalTotal_of c fee = itemTotal c + 5 + fee + (itemTotal c + 10) / 20.
Proof. unfold finalTotal_of. now rewrite gst_closed_form, itemTotal_sum. Qed.

(** X7: the total on the checkout view grows with the item total of the
    cart: for one delivery fee, a cart with a larger item total never shows a
    smaller total, and shows a larger one when the item total is larger. *)
Theorem checkout_total_monotone P1 P2 w1 w2 c1 c2 fee :
  cart_contents (heap w1) (cart w1) = Some c1 ->
  cart_contents (heap w2) (cart w2) = Some c2 ->
  Store_getDeliveryFee P1 = Returns fee ->
  Store_getDeliveryFee P2 = Returns fee ->
  exists t1 t2,
    fst (App.render_CHECKOUT P1 w1) = Ok t1
    /\ fst (App.render_CHECKOUT P2 w2) = Ok t2
    /\ (itemTotal c1 <= itemTotal c2 -> t1 <= t2)
    /\ (itemTotal c1 < itemTotal c2 -> t1 < t2).
Proof.
  intros Hc1 Hc2 Hfee1 Hfee2.
  rewrite (render_CHECKOUT_Ok P1 w1 c1 fee Hc1 Hfee1).
  rewrite (render_CHECKOUT_Ok P2 w2 c2 fee Hc2 Hfee2).
  exists (finalTotal_of c1 fee), (finalTotal_of c2 fee).
  rewrite !finalTotal_of_closed_form. repeat split.
  - intros Hle.
    assert ((itemTotal c1 + 10) / 20 <= (itemTotal c2 + 10) / 20)
      by (apply Z.div_le_mono; lia).
    lia.
  - intros Hlt.
    assert ((itemTotal c1 + 10) / 20 <= (itemTotal c2 + 10) / 20)
      by (apply Z.div_le_mono; lia).
    lia.
Qed.

(** X8: the tax in the total of the checkout view is 5% of the item total,
    rounded to the nearest unit with halves going up: twenty times the tax
    differs from the item total by less than 10 below and at most 10 above;
    and it is not negative when the item total is not. *)
Theorem checkout_tax_is_five_percent P w c fee :
  cart_contents (heap w) (cart w) = Some c ->
  Store_getDeliveryFee P = Returns fee ->
  exists total,
    fst (App.render_CHECKOUT P w) = Ok total
    /\ let gst := total - itemTotal c - 5 - fee in
       -10 < 20 * gst - itemTotal c <= 10
       /\ (0 <= itemTotal c -> 0 <= gst).
Proof.
  intros Hc Hfee. rewrite (render_CHECKOUT_Ok P w c fee Hc Hfee).
  exists (finalTotal_of c fee). split; [reflexivity|].
  rewrite finalTotal_of_closed_form. simpl.
  pose proof (Z.div_mod (itemTotal c + 10) 20 ltac:(lia)) as Hdm.
  pose proof (Z.mod_pos_bound (itemTotal c + 10) 20 ltac:(lia)) as Hb.
  split; [lia|]. intros H0.
  assert (0 <= (itemTotal c + 10) / 20) by (apply Z.div_pos; lia). lia.
Qed.

(** X9: [handlePlaceOrder] does not refuse an empty cart: it hands the store
    a pending order without items whose total is the platform fee plus the
    delivery fee. *)
Theorem empty_cart_is_ordered details paymentId P w fee orderId :
  cart_contents (heap w) (cart w) = Some [] ->
  Store_getDeliveryFee P = Returns fee ->
  Store_generateOrderId P = Returns orderId ->
  let placed := snd (App.handlePlaceOrder details paymentId P w) in
  exists o x,
    EvSaveOrder o ∈ new_events w placed
    /\ order_at (heap placed) o = Some (x, [])
    /\ Order.totalAmount x = 5 + fee
    /\ Order.status x = OrderStatus.PENDING.
Proof.
  intros Hc Hfee Hid placed.
  destruct (handlePlaceOrder_snapshot details paymentId P w [] fee orderId Hc Hfee Hid)
    as (o & Hlog & _ & Hat & _).
  exists o, (order_of P orderId (cart w) [] fee details paymentId).
  split; [now apply Hlog|]. split; [exact Hat|]. split; [|reflexivity].
  simpl. rewrite finalTotal_of_closed_form. unfold itemTotal; simpl.
  change ((0 + 10) / 20) with 0. lia.
Qed.

Lemma handlePlaceOrder_no_fee details paymentId P w c :
  cart_contents (heap w) (cart w) = Some c ->
  Store_getDeliveryFee P = Throws ->
  App.handlePlaceOrder details paymentId P w = (Exn, logged EvGetDeliveryFee w).
Proof.
  intros Hc Hfee. unfold App.handlePlaceOrder. rewrite bind_get_cart_eq.
  rewrite (bind_Ok _ _ _ _ _ _ (Array_reduce_Ok _ 0 P w (cart w) c Hc)).
  now rewrite bind_call_eq, Hfee.
Qed.

Lemma handlePlaceOrder_no_id details paymentId P w c fee :
  cart_contents (heap w) (cart w) = Some c ->
  Store_getDeliveryFee P = Returns fee ->
  Store_generateOrderId P = Throws ->
  App.handlePlaceOrder details paymentId P w
  = (Exn, logged EvGenerateOrderId (logged EvGetDeliveryFee w)).
Proof.
  intros Hc Hfee Hid. unfold App.handlePlaceOrder. rewrite bind_get_cart_eq.
  rewrite (bind_Ok _ _ _ _ _ _ (Array_reduce_Ok _ 0 P w (cart w) c Hc)).
  now rewrite bind_call_eq, Hfee, bind_call_eq, Hid.
Qed.

(** X10: when [Store.getDeliveryFee] or [Store.generateOrderId] throws,
    [handlePlaceOrder] ends with the exception and has done nothing: no
    object was created, cart and view are as they were, and the store was
    asked for nothing but the fee and the id. *)
Theorem failed_lookup_changes_nothing details paymentId P w c :
  cart_contents (heap w) (cart w) = Some c ->
  Store_getDeliveryFee P = Throws \/ Store_generateOrderId P = Throws ->
  let run := App.handlePlaceOrder details paymentId P w in
  fst run = Exn
  /\ heap (snd run) = heap w /\ cart (snd run) = cart w /\ view (snd run) = view w
  /\ forall e, e ∈ new_events w (snd run) -> e = EvGetDeliveryFee \/ e = EvGenerateOrderId.
Proof.
  intros Hc Hthrows. simpl.
  destruct (Store_getDeliveryFee P) as [fee|] eqn:Hfee.
  - destruct Hthrows as [?|Hid]; [discriminate|].
    rewrite (handlePlaceOrder_no_id details paymentId P w c fee Hc Hfee Hid).
    simpl. repeat split.
    intros e. erewrite new_events_app by (simpl; rewrite <- app_assoc; reflexivity).
    simpl. rewrite !elem_of_cons, elem_of_nil. tauto.
  - rewrite (handlePlaceOrder_no_fee details paymentId P w c Hc Hfee).
    simpl. repeat split.
    intros e. erewrite new_events_app by reflexivity.
    rewrite !elem_of_cons, elem_of_nil. tauto.
Qed.

(** X11: when [Store.saveOrder] or [Store.saveLastOrder] throws,
    [handlePlaceOrder] ends with the exception at that call: the cart still
    holds its items, the view is as it was, and neither haptics, nor the
    scheduler, nor [window.open] is called. *)
Theorem failed_persistence_keeps_the_cart details paymentId P w c fee orderId :
  cart_contents (heap w) (cart w) = Some c ->
  Store_getDeliveryFee P = Returns fee ->
  Store_generateOrderId P = Returns orderId ->
  Store_saveOrder P = Throws \/ Store_saveLastOrder P = Throws ->
  let run := App.handlePlaceOrder details paymentId P w in
  fst run = Exn
  /\ cart (snd run) = cart w /\ view (snd run) = view w
  /\ cart_contents (heap (snd run)) (cart (snd run)) = Some c
  /\ exists o,
       new_events w (snd run) = [EvGetDeliveryFee; EvGenerateOrderId; EvSaveOrder o]
       \/ new_events w (snd run)
          = [EvGetDeliveryFee; EvGenerateOrderId; EvSaveOrder o; EvSaveLastOrder (cart w)].
Proof.
  intros Hc Hfee Hid Hthrows. simpl.
  pose proof (handlePlaceOrder_run details paymentId P w c fee orderId Hc Hfee Hid)
    as Hrun. cbv zeta in Hrun.
  assert (Hfresh : heap w !! fresh (dom (heap w)) = None)
    by apply not_elem_of_dom, is_fresh.
  assert (Hc1 : cart_contents
                  (<[fresh (dom (heap w)) :=
                       Ord (order_of P orderId (cart w) c fee details paymentId)]> (heap w))
                  (cart w) = Some c).
  { eapply cart_contents_mono; [|exact Hc]. now apply insert_subseteq. }
  rewrite Hrun.
  destruct (Store_saveOrder P) as [[]|].
  - destruct (Store_saveLastOrder P) as [[]|].
    + destruct Hthrows; discriminate.
    + simpl. repeat split; [exact Hc1|]. eexists. right. now apply new_events_app.
  - simpl. repeat split; [exact Hc1|]. eexists. left. now apply new_events_app.
Qed.

End Submission.

(** ** The realtime watcher and the message handoff, further *)

Section WatcherAndHandoff.

Implicit Types (w : World) (P : Platform) (c : list CartItem.t).

(** X12: an update event never throws out of the watcher and never touches
    heap, cart or view; it either does nothing, or schedules one notification
    and, only when the scheduler has returned, asks for the haptic pulse. *)
Theorem watcher_only_notifies user (newOrder oldOrder : Row.t) P w :
  let run := App.realtime_event user newOrder oldOrder P w in
  fst run = Ok tt
  /\ heap (snd run) = heap w /\ cart (snd run) = cart w /\ view (snd run) = view w
  /\ (new_events w (snd run) = []
      \/ (exists n, new_events w (snd run) = [EvSchedule [n]]
                    /\ LocalNotifications_schedule P = Throws)
      \/ (exists n, new_events w (snd run) = [EvSchedule [n]; EvHaptics Success]
                    /\ LocalNotifications_schedule P = Returns tt)).
Proof.
  assert (Hidle : fst (ret tt P w) = Ok tt
                  /\ heap (snd (ret tt P w)) = heap w /\ cart (snd (ret tt P w)) = cart w
                  /\ view (snd (ret tt P w)) = view w
                  /\ (new_events w (snd (ret tt P w)) = []
                      \/ (exists n, new_events w (snd (ret tt P w)) = [EvSchedule [n]]
                                    /\ LocalNotifications_schedule P = Throws)
                      \/ (exists n, new_events w (snd (ret tt P w))
                                    = [EvSchedule [n]; EvHaptics Success]
                                    /\ LocalNotifications_schedule P = Returns tt))).
  { simpl. repeat split. left. apply new_events_same. }
  simpl. unfold App.realtime_event, App.on_orders_UPDATE.
  destruct user as [user|]; [|exact Hidle].
  destruct (Row.userDetails newOrder) as [details|]; [|exact Hidle].
  destruct (String.eqb _ _); [|exact Hidle].
  destruct (negb _); [|exact Hidle].
  rewrite triggerStatusNotification_eq.
  destruct (LocalNotifications_schedule P) as [[]|]; simpl; repeat split.
  - right; right. eexists. split; [|reflexivity].
    apply new_events_app. simpl. now rewrite <- app_assoc.
  - right; left. eexists. split; [|reflexivity]. now apply new_events_app.
Qed.




End WatcherAndHandoff.

(** ** The tap counter, further *)

Section TapCounterFurther.

Import TapCounter.

Implicit Types (g : TapCounter.t) (d : Z).

(** X14: however the logo is tapped, time passes and the prompt is closed,
    the counter comes to rest with a count from 0 to 4, and a timeout is
    pending exactly when the count is not 0: no count survives without a
    timeout that will reset it. *)
Theorem counter_always_rests (inputs : list input) :
  Forall valid inputs ->
  let g := run inputs initial in
  rendered g = logoClickCount g
  /\ 0 <= logoClickCount g <= 4
  /\ (logoClickCount g = 0 <-> timer g = None)
  /\ (forall remaining, timer g = Some remaining -> 0 < remaining <= 2000).
Proof.
  intros Hv. simpl.
  destruct (resting_run inputs initial Hv resting_initial) as (Hr & Hc & Ht).
  split; [exact Hr|]. split; [exact Hc|].
  destruct (timer (run inputs initial)) as [remaining|]; split.
  - split; [lia | discriminate].
  - intros r [= <-]. lia.
  - tauto.
  - discriminate.
Qed.

Lemma slow_tap g d :
  resting g -> 2000 <= d ->
  handleLogoClick (elapse d g) =
    {| logoClickCount := 1; showPinModal := showPinModal g; timer := Some 2000;
       rendered := 1; prompts := prompts g |}.
Proof.
  intros (Hr & Hc & Ht) Hd.
  destruct (timer g) as [remaining|] eqn:E.
  - rewrite (elapse_beyond g remaining) by (auto; lia).
    now rewrite (tap_below_threshold (TapCounter.mk _ _ _ _ _)) by (simpl; lia).
  - unfold elapse. rewrite E.
    rewrite tap_below_threshold by (auto; lia). now rewrite Ht.
Qed.

(** X15: taps that come 2 seconds or more after one another never show the
    prompt, however many there are; the count does not get beyond 1. *)
Theorem slow_taps_never_prompt (gaps : list Z) g :
  resting g -> Forall (fun d => 2000 <= d) gaps ->
  let g' := run (burst gaps) g in
  prompts g' = prompts g /\ showPinModal g' = showPinModal g
  /\ 0 <= logoClickCount g' <= Z.max 1 (logoClickCount g).
Proof.
  intros Hg Hgaps. revert g Hg.
  induction Hgaps as [|d gaps Hd _ IH]; intros g Hg.
  - simpl. destruct Hg as (_ & Hc & _). repeat split; lia.
  - change (run (burst (d :: gaps)) g)
      with (run (burst gaps) (handleLogoClick (elapse d g))).
    rewrite (slow_tap g d Hg Hd).
    match goal with |- context [run (burst gaps) ?g1] => specialize (IH g1) end.
    destruct IH as (Hp & Hm & Hc); [unfold resting; simpl; lia|].
    simpl in *. destruct Hg as (_ & Hcg & _). repeat split; auto; lia.
Qed.

(** X16: the prompt is shown by a tap at a count of 4 and by nothing else:
    such a tap shows it once, and any other input to a resting counter leaves
    the number of prompts as it is and does not open the prompt. *)
Theorem prompt_only_on_fifth_tap g (i : input) :
  resting g -> valid i ->
  (i = Tap /\ logoClickCount g = 4 ->
     prompts (step g i) = S (prompts g) /\ showPinModal (step g i) = true)
  /\ (~ (i = Tap /\ logoClickCount g = 4) ->
        prompts (step g i) = prompts g
        /\ (showPinModal (step g i) = true -> showPinModal g = true)).
Proof.
  intros (Hr & Hc & Ht) Hv. split.
  - intros [-> H4]. simpl. rewrite tap_at_threshold by assumption. auto.
  - intros Hnot. destruct i as [|ms|]; simpl.
    + assert (Hlt : 0 <= logoClickCount g < 4).
      { destruct (Z.eq_dec (logoClickCount g) 4); [tauto | lia]. }
      rewrite tap_below_threshold by assumption. auto.
    + simpl in Hv. destruct (timer g) as [remaining|] eqn:E.
      * destruct (Z_lt_ge_dec ms remaining) as [Hlt|Hge].
        -- rewrite (elapse_within g remaining) by assumption. auto.
        -- rewrite (elapse_beyond g remaining) by (auto; lia). auto.
      * unfold elapse. rewrite E. auto.
    + split; [reflexivity | discriminate].
Qed.

Lemma quick_tap k g d :
  just_tapped k g -> 0 <= k <= 4 -> 0 <= d < 2000 ->
  just_tapped ((k + 1) mod 5) (handleLogoClick (elapse d g))
  /\ Z.of_nat (prompts (handleLogoClick (elapse d g)))
     = Z.of_nat (prompts g) + (k + 1) / 5.
Proof.
  intros (Hc & Hr & Ht) Hk Hd.
  assert (He : elapse d g =
               {| logoClickCount := k; showPinModal := showPinModal g;
                  timer := (if k =? 0 then None else Some (2000 - d));
                  rendered := k; prompts := prompts g |}).
  { destruct (k =? 0) eqn:E0.
    - unfold elapse. rewrite Ht. destruct g; simpl in *. congruence.
    - rewrite (elapse_within g 2000) by (auto; lia). now rewrite Hc, Hr. }
  rewrite He. clear He.
  destruct (Z.eq_dec k 4) as [->|Hne].
  - rewrite (tap_at_threshold (TapCounter.mk _ _ _ _ _)) by reflexivity.
    unfold just_tapped; cbn [logoClickCount rendered timer prompts].
    change ((4 + 1) mod 5) with 0. change ((4 + 1) / 5) with 1.
    rewrite Nat2Z.inj_succ. repeat split; lia.
  - rewrite (tap_below_threshold (TapCounter.mk _ _ _ _ _)) by (simpl; lia).
    assert (Hmod : (k + 1) mod 5 = k + 1) by (apply Z.mod_small; lia).
    assert (Hdiv : (k + 1) / 5 = 0) by (apply Z.div_small; lia).
    rewrite Hmod, Hdiv. unfold just_tapped; cbn [logoClickCount rendered timer prompts].
    replace (k + 1 =? 0) with false by (symmetry; lia). repeat split; lia.
Qed.

Lemma quick_taps k (gaps : list Z) g :
  just_tapped k g -> 0 <= k <= 4 -> Forall (fun d => 0 <= d < 2000) gaps ->
  let n := Z.of_nat (length gaps) in
  let g' := run (burst gaps) g in
  logoClickCount g' = (k + n) mod 5
  /\ Z.of_nat (prompts g') = Z.of_nat (prompts g) + (k + n) / 5.
Proof.
  intros Hg Hk Hgaps. revert k g Hg Hk.
  induction Hgaps as [|d gaps Hd _ IH]; intros k g Hg Hk.
  - simpl. destruct Hg as (Hc & _). rewrite Z.add_0_r.
    rewrite Z.mod_small, Z.div_small by lia. split; [exact Hc | lia].
  - destruct (quick_tap k g d Hg Hk Hd) as (Hnext & Hp).
    assert (Hk' : 0 <= (k + 1) mod 5 <= 4).
    { pose proof (Z.mod_pos_bound (k + 1) 5). lia. }
    specialize (IH _ _ Hnext Hk').
    cbn [length burst List.flat_map app run fold_left step] in *.
    change (List.flat_map (fun gap => [Wait gap; Tap]) gaps) with (burst gaps).
    change (fold_left step (burst gaps)) with (run (burst gaps)).
    destruct IH as (IHc & IHp). rewrite IHc, IHp, Hp.
    rewrite Nat2Z.inj_succ.
    set (n := Z.of_nat (length gaps)) in *.
    assert (0 <= n) by (subst n; lia).
    split.
    + replace (k + Z.succ n) with ((k + 1) + n) by lia.
      now rewrite Zplus_mod_idemp_l.
    + replace (k + Z.succ n) with ((k + 1) + n) by lia.
      rewrite (Z.div_mod (k + 1) 5) at 3 by lia.
      replace (5 * ((k + 1) / 5) + (k + 1) mod 5 + n)
        with ((k + 1) mod 5 + n + ((k + 1) / 5) * 5) by lia.
      rewrite Z.div_add by lia. lia.
Qed.

(** X17: of a run of taps that each come less than 2 seconds after the one
    before, starting at a count of 0, every fifth shows the prompt: after [n]
    taps the prompt has been shown [n / 5] times and the count is
    [n mod 5]. *)
Theorem every_fifth_quick_tap_prompts (gaps : list Z) g :
  resting g -> logoClickCount g = 0 ->
  Forall (fun d => 0 <= d < 2000) gaps ->
  let n := Z.of_nat (length gaps) in
  let g' := run (burst gaps) g in
  logoClickCount g' = n mod 5
  /\ Z.of_nat (prompts g') = Z.of_nat (prompts g) + n / 5.
Proof.
  intros (Hr & Hc & Ht) H0 Hgaps.
  assert (Hg : just_tapped 0 g).
  { unfold just_tapped. simpl. repeat split; [exact H0 | congruence |].
    destruct (timer g); [lia | reflexivity]. }
  apply (quick_taps 0 gaps g Hg ltac:(lia) Hgaps).
Qed.

End TapCounterFurther.

(** ** The component as a whole *)

Section WholeComponent.

Import Component.

Implicit Types (w : World) (P : Platform) (B : Backend) (c : Component.t) (a : action).

Lemma realtime_event_frame user (newOrder oldOrder : Row.t) P w :
  let w' := snd (App.realtime_event user newOrder oldOrder P w) in
  heap w' = heap w /\ cart w' = cart w /\ view w' = view w.
Proof.
  simpl. unfold App.realtime_event, App.on_orders_UPDATE.
  destruct user as [user|]; [|simpl; auto].
  destruct (Row.userDetails newOrder) as [details|]; [|simpl; auto].
  destruct (String.eqb _ _); [|simpl; auto].
  destruct (negb _); [|simpl; auto].
  rewrite triggerStatusNotification_eq.
  destruct (LocalNotifications_schedule P); simpl; auto.
Qed.

(** After [handlePlaceOrder] on a world whose cart denotes [cs], the cart
    denotes [cs] and the view is as it was, or the cart is empty and the view
    is the success view. *)
Lemma handlePlaceOrder_cart_view details paymentId P w cs :
  cart_contents (heap w) (cart w) = Some cs ->
  let w' := snd (App.handlePlaceOrder details paymentId P w) in
  (cart_contents (heap w') (cart w') = Some cs /\ view w' = view w)
  \/ (cart_contents (heap w') (cart w') = Some [] /\ view w' = SUCCESS).
Proof.
  intros Hc. simpl.
  destruct (Store_getDeliveryFee P) as [fee|] eqn:Hfee.
  2: { rewrite (handlePlaceOrder_no_fee details paymentId P w cs Hc Hfee). left. auto. }
  destruct (Store_generateOrderId P) as [orderId|] eqn:Hid.
  2: { rewrite (handlePlaceOrder_no_id details paymentId P w cs fee Hc Hfee Hid).
       left. auto. }
  pose proof (handlePlaceOrder_run details paymentId P w cs fee orderId Hc Hfee Hid)
    as Hrun. cbv zeta in Hrun.
  assert (Hfresh : heap w !! fresh (dom (heap w)) = None)
    by apply not_elem_of_dom, is_fresh.
  assert (Hc1 : cart_contents
                  (<[fresh (dom (heap w)) :=
                       Ord (order_of P orderId (cart w) cs fee details paymentId)]> (heap w))
                  (cart w) = Some cs).
  { eapply cart_contents_mono; [|exact Hc]. now apply insert_subseteq. }
  rewrite Hrun.
  destruct (Store_saveOrder P) as [[]|];
    [destruct (Store_saveLastOrder P) as [[]|];
     [destruct (encodeURIComponent _) as [encoded|]|]|];
    simpl; auto;
    right; (split; [|reflexivity]); unfold cart_contents; now rewrite lookup_insert_eq.
Qed.

Lemma open_channels_app (l1 l2 : list Call) :
  open_channels (l1 ++ l2) = open_channels l1 + open_channels l2.
Proof.
  induction l1 as [|x l1 IH]; simpl; [lia|]. destruct x; lia.
Qed.

Lemma sound_cart_setView v P w : sound_cart w -> sound_cart (snd (setView v P w)).
Proof. intros H. exact H. Qed.

Lemma sound_cart_handle a P B c :
  sound_cart (world c) -> sound_cart (world (handle a P B c)).
Proof.
  intros Hs. destruct a; simpl; try exact Hs.
  - unfold backButton.
    destruct (bool_decide (view (world c) = HOME) && negb _); [exact Hs|].
    destruct (bool_decide (view (world c) = LOGIN)); [exact Hs|].
    destruct (TapCounter.showPinModal (tap c)); [exact Hs|].
    destruct (negb _); [exact Hs|]. destruct canGoBack; exact Hs.
  - destruct (realtime_event_frame (subscription c) newOrder oldOrder P (world c))
      as (Hh & Hc & _).
    unfold sound_cart. now rewrite Hh, Hc.
  - unfold handleLoginSuccess. destruct (Store_saveCurrentUser B); exact Hs.
  - unfold handleLogout. destruct (Store_logoutUser B); exact Hs.
  - destruct Hs as (cs & Hc & Hpos & Hnd).
    destruct (App_updateCartQuantity_refines itemId delta P (world c) cs Hc)
      as (w' & Hrun & Hc' & _).
    rewrite Hrun. exists (updateCartQuantity itemId delta cs).
    split; [exact Hc'|]. split; [apply updateCartQuantity_positive|].
    now apply updateCartQuantity_distinct_ids.
  - destruct Hs as (cs & Hc & Hpos & Hnd).
    destruct (handlePlaceOrder_cart_view details paymentId P (world c) cs Hc)
      as [[Hc' _] | [Hc' _]].
    + now exists cs.
    + exists []. split; [exact Hc'|]. split; constructor.
  - destruct Hs as (cs & Hc & Hpos & Hnd).
    destruct (App_addToCart_refines item P (world c) cs Hc) as (w' & Hrun & Hc' & _).
    rewrite Hrun. exists (addToCart item cs).
    split; [exact Hc'|]. split; [now apply addToCart_positive|].
    now apply addToCart_distinct_ids.
  - unfold handleAdminLogin. destruct (Store_getAdminPin B); [|exact Hs].
    destruct (String.eqb _ _); exact Hs.
Qed.

Lemma resting_handle a P B c :
  enabled c a -> TapCounter.resting (tap c) -> TapCounter.resting (tap (handle a P B c)).
Proof.
  intros Hen Hr. destruct a; simpl; try exact Hr.
  - unfold backButton.
    destruct (bool_decide (view (world c) = HOME) && negb _); [exact Hr|].
    destruct (bool_decide (view (world c) = LOGIN)); [exact Hr|].
    destruct (TapCounter.showPinModal (tap c)) eqn:Em.
    + apply (resting_step (tap c) TapCounter.Close I Hr).
    + destruct (negb _); [exact Hr|]. destruct canGoBack; exact Hr.
  - apply (resting_step (tap c) (TapCounter.Wait ms) Hen Hr).
  - unfold handleLoginSuccess. destruct (Store_saveCurrentUser B); exact Hr.
  - unfold handleLogout. destruct (Store_logoutUser B); exact Hr.
  - apply (resting_step (tap c) TapCounter.Tap I Hr).
  - unfold handleAdminLogin. destruct (Store_getAdminPin B); [|exact Hr].
    destruct (String.eqb _ _); [|exact Hr].
    apply (resting_step (tap c) TapCounter.Close I Hr).
Qed.

(** The view after [handlePlaceOrder] is the view before or the success
    view. *)
Lemma handlePlaceOrder_view details paymentId P w :
  sound_cart w ->
  view (snd (App.handlePlaceOrder details paymentId P w)) = view w
  \/ view (snd (App.handlePlaceOrder details paymentId P w)) = SUCCESS.
Proof.
  intros (cs & Hc & _).
  destruct (handlePlaceOrder_cart_view details paymentId P w cs Hc) as [[_ H]|[_ H]]; auto.
Qed.

Lemma view_cart_handler_same P w cs (m : M unit) (f : list CartItem.t -> list CartItem.t) :
  (exists w', m P w = (Ok tt, w') /\ cart_contents (heap w') (cart w') = Some (f cs)
              /\ heap w ⊆ heap w' /\ view w' = view w
              /\ log w' = log w ++ [EvSetCart (cart w')]) ->
  view (snd (m P w)) = view w.
Proof. intros (w' & -> & _ & _ & Hv & _). exact Hv. Qed.

(** The login view and the logged-in user after an action. *)
Lemma login_view_handle a P B c :
  enabled c a -> sound_cart (world c) ->
  (view (world c) = LOGIN <-> currentUser c = None) ->
  (view (world (handle a P B c)) = LOGIN <-> currentUser (handle a P B c) = None).
Proof.
  intros Hen Hs Hinv.
  assert (Hstay : forall (v : View) (u : option UserProfile.t),
             v = view (world c) -> u = currentUser c -> (v = LOGIN <-> u = None)).
  { intros v u -> ->. exact Hinv. }
  assert (Hgo : forall (v : View) (u : option UserProfile.t),
             v <> LOGIN -> view (world c) <> LOGIN -> u = currentUser c ->
             (v = LOGIN <-> u = None)).
  { intros v u Hne Hc ->. split; [contradiction|].
    intros Hn. apply Hinv in Hn. contradiction. }
  destruct a; simpl in Hen |- *.
  - unfold backButton.
    destruct (bool_decide (view (world c) = HOME) && negb _); [now apply Hstay|].
    destruct (bool_decide (view (world c) = LOGIN)) eqn:El; [now apply Hstay|].
    apply bool_decide_eq_false in El.
    destruct (TapCounter.showPinModal (tap c)); [now apply Hstay|].
    destruct (negb _); [|destruct canGoBack; now apply Hstay].
    simpl. now apply Hgo.
  - now apply Hstay.
  - apply Hstay; [|reflexivity].
    apply (realtime_event_frame (subscription c) newOrder oldOrder P (world c)).
  - unfold handleLoginSuccess. destruct (Store_saveCurrentUser B); [|now apply Hstay].
    simpl. split; discriminate.
  - unfold handleLogout. destruct (Store_logoutUser B); [|now apply Hstay].
    simpl. tauto.
  - apply Hgo; [discriminate | rewrite Hen; discriminate | reflexivity].
  - apply Hgo; [discriminate | rewrite Hen; discriminate | reflexivity].
  - now apply Hstay.
  - apply Hstay; [|reflexivity]. destruct Hs as (cs & Hc & _).
    apply (view_cart_handler_same P (world c) cs _ (updateCartQuantity itemId delta)).
    now apply App_updateCartQuantity_refines.
  - apply Hgo; [discriminate | rewrite Hen; discriminate | reflexivity].
  - apply Hgo; [discriminate | rewrite Hen; discriminate | reflexivity].
  - apply Hgo; [discriminate | rewrite Hen; discriminate | reflexivity].
  - destruct (handlePlaceOrder_view details paymentId P (world c) Hs) as [Hv|Hv].
    + now apply Hstay.
    + rewrite Hv. apply Hgo; [discriminate | rewrite Hen; discriminate | reflexivity].
  - apply Hgo; [discriminate | rewrite Hen; discriminate | reflexivity].
  - destruct Hen as [Hen _].
    apply Hgo; [discriminate | rewrite Hen; discriminate | reflexivity].
  - now apply Hstay.
  - apply Hgo; [discriminate | rewrite Hen; discriminate | reflexivity].
  - apply Hstay; [|reflexivity]. destruct Hs as (cs & Hc & _).
    apply (view_cart_handler_same P (world c) cs _ (addToCart item)).
    now apply App_addToCart_refines.
  - now apply Hstay.
  - unfold handleAdminLogin. destruct (Store_getAdminPin B); [|now apply Hstay].
    destruct (String.eqb _ _); [|now apply Hstay].
    destruct Hen as [Hen _]. simpl.
    apply Hgo; [discriminate | rewrite Hen; discriminate | reflexivity].
  - now apply Hstay.
Qed.

(** What an action does to the channel bookkeeping: it opens and removes no
    channel itself and leaves [subscription] alone; and unless it marks the
    watcher effect stale, it leaves the current user alone. *)
Lemma channels_handle a P B c :
  stale c = false ->
  let c' := handle a P B c in
  subscription c' = subscription c
  /\ open_channels (calls c') = open_channels (calls c)
  /\ (stale c' = false -> currentUser c' = currentUser c).
Proof.
  intros Hst. destruct a; simpl; auto.
  - unfold backButton.
    destruct (bool_decide (view (world c) = HOME) && negb _);
      [simpl; rewrite open_channels_app; simpl; repeat split; auto; lia|].
    destruct (bool_decide (view (world c) = LOGIN));
      [simpl; rewrite open_channels_app; simpl; repeat split; auto; lia|].
    destruct (TapCounter.showPinModal (tap c)); [simpl; auto|].
    destruct (negb _); [simpl; auto|].
    destruct canGoBack; simpl; auto.
    rewrite open_channels_app; simpl; repeat split; auto; lia.
  - unfold handleLoginSuccess. destruct (Store_saveCurrentUser B); simpl;
      rewrite open_channels_app; simpl; repeat split; auto; try lia; discriminate.
  - unfold handleLogout. destruct (Store_logoutUser B); simpl;
      rewrite open_channels_app; simpl; repeat split; auto; try lia.
    destruct (currentUser c); [discriminate | reflexivity].
  - unfold handleAdminLogin. destruct (Store_getAdminPin B); [|simpl].
    + destruct (String.eqb _ _); simpl; rewrite ?open_channels_app; simpl;
        repeat split; auto; lia.
    + rewrite open_channels_app; simpl; repeat split; auto; lia.
Qed.

(** The watcher effect restores the channel bookkeeping. *)
Lemma watch_orders_channels c :
  open_channels (calls c) = match subscription c with Some _ => 1 | None => 0 end ->
  (stale c = false -> subscription c = currentUser c) ->
  let c' := watch_orders c in
  world c' = world c /\ tap c' = tap c /\ currentUser c' = currentUser c
  /\ pinInput c' = pinInput c
  /\ stale c' = false
  /\ subscription c' = currentUser c'
  /\ open_channels (calls c')
     = match currentUser c' with Some _ => 1 | None => 0 end.
Proof.
  destruct c as [w g m u p s st l]. unfold watch_orders. simpl.
  intros Hopen Hsub. destruct st.
  - destruct s as [old|], u as [new|]; simpl;
      rewrite ?open_channels_app; simpl; repeat split; lia.
  - rewrite <- (Hsub eq_refl). repeat split; auto.
Qed.

Lemma invariant_step a P B c :
  component_invariant c -> enabled c a -> component_invariant (step a P B c).
Proof.
  intros (Hlogin & Hst & Hsub & Hopen & Hcart & Hrest) Hen. unfold step.
  destruct (channels_handle a P B c Hst) as (Hsub' & Hopen' & Hstale').
  destruct (watch_orders_channels (handle a P B c)) as (Hw & Ht & Hu & _ & Hs & Hs2 & Ho).
  { rewrite Hopen', Hsub', Hopen, Hsub. reflexivity. }
  { intros Hfalse. rewrite Hsub', (Hstale' Hfalse). exact Hsub. }
  unfold component_invariant. rewrite Hw, Ht. rewrite Hu in *.
  split; [now apply login_view_handle|].
  split; [exact Hs|]. split; [exact Hs2|]. split; [exact Ho|].
  split; [now apply sound_cart_handle | now apply resting_handle].
Qed.

Lemma invariant_mount P B : component_invariant (watch_orders (initial_load P B mounted)).
Proof.
  assert (Hcart : sound_cart initial_world).
  { exists []. split; [reflexivity|]. split; constructor. }
  unfold initial_load.
  destruct (Store_getCurrentUser B) as [[user|]|];
    destruct (Store_getMenu B) as [loaded|]; unfold component_invariant; simpl;
    (split; [split; discriminate || reflexivity|]);
    (split; [reflexivity|]); (split; [reflexivity|]); (split; [reflexivity|]);
    (split; [exact Hcart | exact resting_initial]).
Qed.

Lemma reachable_invariant c : reachable c -> component_invariant c.
Proof.
  induction 1 as [P B | a P B c _ IH Hen].
  - apply invariant_mount.
  - now apply invariant_step.
Qed.

End WholeComponent.

Section ComponentProperties.

Import Component.

Implicit Types (w : World) (P : Platform) (B : Backend) (c : Component.t) (a : action).

(** X18: in every state the component reaches, the login view is shown
    exactly when no user is logged in; so wherever the orders of the user are
    shown (line 324, [currentUser!]), there is a user. *)
Theorem user_present_past_login c :
  reachable c ->
  (view (world c) = LOGIN <-> currentUser c = None)
  /\ (view (world c) = MY_ORDERS -> exists user, currentUser c = Some user).
Proof.
  intros Hr. destruct (reachable_invariant c Hr) as (Hlogin & _). split; [exact Hlogin|].
  intros Hv. destruct (currentUser c) as [user|]; [eauto|].
  assert (Hl : view (world c) = LOGIN) by now apply Hlogin.
  rewrite Hv in Hl. discriminate.
Qed.

(** X19: in every state the component reaches, the watcher has one channel
    open, whose callback filters on the phone of the current user, when a
    user is logged in, and none otherwise: every channel subscribed earlier
    has been removed. *)
Theorem one_channel_for_the_current_user c :
  reachable c ->
  subscription c = currentUser c
  /\ open_channels (calls c) = match currentUser c with Some _ => 1 | None => 0 end.
Proof.
  intros Hr. destruct (reachable_invariant c Hr) as (_ & _ & Hsub & Hopen & _). auto.
Qed.

(** X20: in every state the component reaches, through whatever handlers
    and in whatever view, the cart denotes a list of entries with positive
    quantities and pairwise distinct ids. *)
Theorem reachable_cart_is_sound c :
  reachable c ->
  exists cs,
    cart_contents (heap (world c)) (cart (world c)) = Some cs
    /\ (forall i, i ∈ cs -> 0 < CartItem.quantity i)
    /\ NoDup (ids cs).
Proof.
  intros Hr. destruct (reachable_invariant c Hr) as (_ & _ & _ & _ & Hcart & _).
  destruct Hcart as (cs & Hc & Hpos & Hnd). exists cs.
  split; [exact Hc|]. split; [now apply Forall_forall | exact Hnd].
Qed.

(** X24: mounting.  With a saved user the component starts on the home
    view with that user and a channel for them; without one it starts on the
    login view with no channel.  When [Store.getCurrentUser] throws, the
    effect ends there: no user and no menu is set, and neither the menu nor
    the notification permission is asked for. *)
Theorem mount_outcomes P B :
  let c := watch_orders (initial_load P B mounted) in
  (forall user, Store_getCurrentUser B = Returns (Some user) ->
     view (world c) = HOME /\ currentUser c = Some user
     /\ CallSubscribe user ∈ calls c)
  /\ (Store_getCurrentUser B = Returns None ->
      view (world c) = LOGIN /\ currentUser c = None
      /\ forall user, CallSubscribe user ∉ calls c)
  /\ (Store_getCurrentUser B = Throws ->
      currentUser c = None /\ menu c = []
      /\ calls c = [CallGetCurrentUser])
  /\ (forall saved loaded, Store_getCurrentUser B = Returns saved ->
      Store_getMenu B = Returns loaded ->
      menu c = loaded /\ CallRequestPermissions ∈ calls c).
Proof.
  simpl. unfold initial_load.
  split; [|split; [|split]].
  - intros user ->. destruct (Store_getMenu B); simpl;
      (split; [reflexivity|]); (split; [reflexivity|]); rewrite !elem_of_cons; auto 10.
  - intros ->. destruct (Store_getMenu B); simpl;
      (split; [reflexivity|]); (split; [reflexivity|]);
      intros user; rewrite !elem_of_cons, elem_of_nil; intros H;
      repeat (destruct H as [H|H]; [discriminate|]); exact H.
  - intros ->. simpl. auto.
  - intros saved loaded -> ->. destruct saved; simpl; (split; [reflexivity|]);
      rewrite !elem_of_cons; auto 10.
Qed.

Lemma watch_orders_world c : world (watch_orders c) = world c.
Proof.
  destruct c as [w g m u p s [] l]; [|reflexivity].
  destruct s, u; reflexivity.
Qed.

Lemma watch_orders_pin c :
  pinInput (watch_orders c) = pinInput c /\ tap (watch_orders c) = tap c.
Proof.
  destruct c as [w g m u p s [] l]; [|auto].
  destruct s, u; auto.
Qed.

(** X21: how the view changes.  From a state the component reaches, an
    action that changes the view is one of those the routing offers for that
    change; in particular the admin dashboard is entered by submitting the
    PIN form, with the prompt showing and the PIN of the store typed, and by
    nothing else, which also empties the PIN input and closes the prompt; and
    the success view is entered by [handlePlaceOrder] and by nothing else. *)
Theorem view_changes a P B c :
  reachable c -> enabled c a ->
  let c' := step a P B c in
  view (world c') <> view (world c) ->
  match view (world c') with
  | LOGIN => a = Logout
  | HOME =>
      (exists b, a = Back b) \/ (exists user, a = LoginSuccess user)
      \/ a = PlaceAnotherOrder \/ a = AdminLogout \/ a = CartGoBack \/ a = MyOrdersGoBack
  | SUCCESS => exists details paymentId, a = PlaceOrder details paymentId
  | ADMIN_DASHBOARD =>
      a = PinSubmit /\ TapCounter.showPinModal (tap c) = true
      /\ Store_getAdminPin B = Returns (pinInput c)
      /\ pinInput c' = "" /\ TapCounter.showPinModal (tap c') = false
  | CART => a = GoToCart \/ a = CheckoutGoBack
  | CHECKOUT => a = CartCheckout
  | MY_ORDERS => a = OpenMyOrders
  end.
Proof.
  intros Hr Hen. simpl. unfold step.
  destruct (watch_orders_pin (handle a P B c)) as [-> ->].
  rewrite watch_orders_world.
  destruct (reachable_invariant c Hr) as (_ & _ & _ & _ & Hcart & _).
  destruct a; simpl in Hen |- *; try congruence; try tauto; eauto 10.
  - unfold backButton.
    destruct (bool_decide (view (world c) = HOME) && negb _); [simpl; congruence|].
    destruct (bool_decide (view (world c) = LOGIN)); [simpl; congruence|].
    destruct (TapCounter.showPinModal (tap c)); [simpl; congruence|].
    destruct (negb _); [simpl; eauto | destruct canGoBack; simpl; congruence].
  - destruct (realtime_event_frame (subscription c) newOrder oldOrder P (world c))
      as (_ & _ & Hv). congruence.
  - unfold handleLoginSuccess. destruct (Store_saveCurrentUser B); simpl;
      [eauto 10 | congruence].
  - unfold handleLogout. destruct (Store_logoutUser B); simpl; congruence.
  - destruct Hcart as (cs & Hc & _).
    destruct (App_updateCartQuantity_refines itemId delta P (world c) cs Hc)
      as (w' & Hrun & _ & _ & Hv & _).
    rewrite Hrun. simpl. congruence.
  - destruct (handlePlaceOrder_view details paymentId P (world c) Hcart) as [Hv|Hv];
      rewrite Hv; [congruence | eauto].
  - destruct Hcart as (cs & Hc & _).
    destruct (App_addToCart_refines item P (world c) cs Hc)
      as (w' & Hrun & _ & _ & Hv & _).
    rewrite Hrun. simpl. congruence.
  - unfold handleAdminLogin.
    destruct (Store_getAdminPin B) as [pin|];
      [|intros Hne; exfalso; apply Hne; reflexivity].
    simpl.
    destruct (String.eqb (pinInput c) pin) eqn:E;
      [|intros Hne; exfalso; apply Hne; reflexivity].
    simpl. intros _.
    apply String.eqb_eq in E. subst pin. destruct Hen as [_ Hm]. auto.
Qed.

(** X22: the back button never calls [window.history.back()]: the last
    branch of the listener cannot be taken, and what the listener does does
    not depend on [canGoBack]. *)
Theorem back_never_goes_back_in_history canGoBack P c :
  (CallHistoryBack ∉ new_calls c (backButton canGoBack P c))
  /\ backButton canGoBack P c = backButton (negb canGoBack) P c.
Proof.
  unfold backButton, new_calls.
  destruct (bool_decide (view (world c) = HOME)) eqn:Eh;
    destruct (TapCounter.showPinModal (tap c)) eqn:Em;
    destruct (bool_decide (view (world c) = LOGIN)) eqn:El;
    simpl; (split; [|reflexivity]);
    rewrite ?drop_app_length, ?drop_all;
    try (apply not_elem_of_nil);
    intros Hin; apply list_elem_of_singleton in Hin; discriminate.
Qed.


End ComponentProperties.

(** A returning user is taken to the home view, with one channel open. *)
Lemma user_present_past_login_witness :
  Component.reachable returning_user
  /\ view (Component.world returning_user) = HOME
  /\ Component.currentUser returning_user = Some asha
  /\ (view (Component.world returning_user) = LOGIN
      <-> Component.currentUser returning_user = None).
Proof.
  assert (Hr : Component.reachable returning_user) by apply Component.reachable_mount.
  split; [exact Hr|]. split; [reflexivity|]. split; [reflexivity|].
  exact (proj1 (user_present_past_login returning_user Hr)).
Defined.

Lemma one_channel_for_the_current_user_witness :
  Component.reachable returning_user
  /\ Component.calls returning_user
     = [CallGetCurrentUser; CallGetMenu; CallRequestPermissions; CallSubscribe asha]
  /\ Component.subscription returning_user = Component.currentUser returning_user
  /\ Component.open_channels (Component.calls returning_user) = 1.
Proof.
  assert (Hr : Component.reachable returning_user) by apply Component.reachable_mount.
  split; [exact Hr|]. split; [reflexivity|].
  exact (one_channel_for_the_current_user returning_user Hr).
Defined.

Lemma reachable_cart_is_sound_witness :
  Component.reachable
    (Component.step (Component.AddToCart idli) (obliging 10) (answering (Some asha))
       returning_user)
  /\ exists cs,
       cart_contents
         (heap (Component.world
                  (Component.step (Component.AddToCart idli) (obliging 10)
                     (answering (Some asha)) returning_user)))
         (cart (Component.world
                  (Component.step (Component.AddToCart idli) (obliging 10)
                     (answering (Some asha)) returning_user)))
       = Some cs
       /\ (forall i, i ∈ cs -> 0 < CartItem.quantity i)
       /\ NoDup (ids cs).
Proof.
  assert (Hr : Component.reachable
                 (Component.step (Component.AddToCart idli) (obliging 10)
                    (answering (Some asha)) returning_user)).
  { apply Component.reachable_step; [apply Component.reachable_mount | reflexivity]. }
  split; [exact Hr|]. exact (reachable_cart_is_sound _ Hr).
Defined.

(** Five taps on the logo and the PIN of the store open the admin
    dashboard. *)
Lemma view_changes_witness :
  Component.reachable pin_typed
  /\ Component.enabled pin_typed Component.PinSubmit
  /\ view (Component.world pin_typed) = HOME
  /\ view (Component.world
             (Component.step Component.PinSubmit (obliging 10) (answering (Some asha))
                pin_typed)) = ADMIN_DASHBOARD
  /\ TapCounter.showPinModal (Component.tap pin_typed) = true
  /\ Store_getAdminPin (answering (Some asha)) = Returns (Component.pinInput pin_typed)
  /\ Component.pinInput
       (Component.step Component.PinSubmit (obliging 10) (answering (Some asha))
          pin_typed) = ""
  /\ TapCounter.showPinModal
       (Component.tap
          (Component.step Component.PinSubmit (obliging 10) (answering (Some asha))
             pin_typed)) = false.
Proof.
  assert (Hr : Component.reachable pin_typed).
  { unfold pin_typed.
    repeat (apply Component.reachable_step;
            [|vm_compute; first [lia | discriminate | auto]]).
    apply Component.reachable_mount. }
  assert (Hen : Component.enabled pin_typed Component.PinSubmit) by (vm_compute; auto).
  assert (Hne : view (Component.world
                        (Component.step Component.PinSubmit (obliging 10)
                           (answering (Some asha)) pin_typed))
                <> view (Component.world pin_typed)) by (vm_compute; discriminate).
  split; [exact Hr|]. split; [exact Hen|]. split; [reflexivity|]. split; [reflexivity|].
  exact (proj2 (view_changes Component.PinSubmit (obliging 10) (answering (Some asha))
                  pin_typed Hr Hen Hne)).
Defined.

(** ** The further properties at concrete inputs *)

Lemma breakfast_distinct : NoDup (ids breakfast).
Proof. apply (bool_decide_unpack _). vm_compute. exact I. Qed.

Lemma breakfast_positive : positive_quantities breakfast.
Proof. repeat constructor; simpl; lia. Qed.

Lemma addToCart_counts_one_witness :
  NoDup (ids breakfast)
  /\ cartItemCount breakfast = 3
  /\ cartItemCount (addToCart idli breakfast) = 3 + 1.
Proof.
  split; [exact breakfast_distinct|]. split; [reflexivity|].
  exact (addToCart_counts_one idli breakfast breakfast_distinct).
Defined.

Lemma decrement_undoes_addToCart_witness :
  positive_quantities breakfast
  /\ updateCartQuantity "A" (-1) (addToCart idli breakfast) = breakfast.
Proof.
  split; [exact breakfast_positive|].
  exact (decrement_undoes_addToCart idli breakfast breakfast_positive).
Defined.

Lemma updateCartQuantity_composes_witness :
  positive_quantities breakfast /\ (0 <= 3 \/ -1 <= 0)
  /\ updateCartQuantity "A" (-1) (updateCartQuantity "A" 3 breakfast)
     = updateCartQuantity "A" (3 + -1) breakfast.
Proof.
  assert (Hd : 0 <= 3 \/ -1 <= 0) by (left; lia).
  split; [exact breakfast_positive|]. split; [exact Hd|].
  exact (updateCartQuantity_composes "A" 3 (-1) breakfast breakfast_positive Hd).
Defined.

Lemma updateCartQuantity_count_witness :
  positive_quantities breakfast /\ NoDup (ids breakfast)
  /\ CartItem.mk idli 2 ∈ breakfast
  /\ cartItemCount (updateCartQuantity "A" (-5) breakfast) = 3 + Z.max (-2) (-5).
Proof.
  assert (Hin : CartItem.mk idli 2 ∈ breakfast) by left.
  split; [exact breakfast_positive|]. split; [exact breakfast_distinct|].
  split; [exact Hin|].
  exact (updateCartQuantity_count (-5) breakfast (CartItem.mk idli 2)
           breakfast_positive breakfast_distinct Hin).
Defined.

(** Adding the idli at its new price of 120 to a cart that holds idlis at
    100 raises the item total by 100. *)
Lemma addToCart_itemTotal_witness :
  NoDup (ids breakfast)
  /\ itemTotal breakfast = 240
  /\ itemTotal (addToCart dearer_idli breakfast) = 240 + 100.
Proof.
  assert (Hin : CartItem.mk idli 2 ∈ breakfast) by left.
  split; [exact breakfast_distinct|]. split; [reflexivity|].
  exact (proj1 (addToCart_itemTotal dearer_idli breakfast breakfast_distinct)
           (CartItem.mk idli 2) Hin eq_refl).
Defined.

Lemma checkout_total_monotone_witness :
  cart_contents (heap initial_world) (cart initial_world) = Some []
  /\ cart_contents (heap two_idlis) (cart two_idlis) = Some [CartItem.mk idli 2]
  /\ exists t1 t2,
       fst (App.render_CHECKOUT (obliging 0) initial_world) = Ok t1
       /\ fst (App.render_CHECKOUT (obliging 0) two_idlis) = Ok t2
       /\ (itemTotal [] <= itemTotal [CartItem.mk idli 2] -> t1 <= t2)
       /\ (itemTotal [] < itemTotal [CartItem.mk idli 2] -> t1 < t2).
Proof.
  assert (H1 : cart_contents (heap initial_world) (cart initial_world) = Some [])
    by reflexivity.
  assert (H2 : cart_contents (heap two_idlis) (cart two_idlis) = Some [CartItem.mk idli 2])
    by reflexivity.
  split; [exact H1|]. split; [exact H2|].
  exact (checkout_total_monotone (obliging 0) (obliging 0) initial_world two_idlis
           [] [CartItem.mk idli 2] 20 H1 H2 eq_refl eq_refl).
Defined.

Lemma checkout_tax_is_five_percent_witness :
  cart_contents (heap two_idlis) (cart two_idlis) = Some [CartItem.mk idli 2]
  /\ exists total,
       fst (App.render_CHECKOUT (obliging 0) two_idlis) = Ok total
       /\ let gst := total - itemTotal [CartItem.mk idli 2] - 5 - 20 in
          -10 < 20 * gst - itemTotal [CartItem.mk idli 2] <= 10
          /\ (0 <= itemTotal [CartItem.mk idli 2] -> 0 <= gst).
Proof.
  assert (H2 : cart_contents (heap two_idlis) (cart two_idlis) = Some [CartItem.mk idli 2])
    by reflexivity.
  split; [exact H2|].
  exact (checkout_tax_is_five_percent (obliging 0) two_idlis [CartItem.mk idli 2] 20
           H2 eq_refl).
Defined.

Lemma empty_cart_is_ordered_witness :
  cart_contents (heap initial_world) (cart initial_world) = Some []
  /\ let placed := snd (App.handlePlaceOrder customer "pay_1" (obliging 0) initial_world) in
     exists o x,
       EvSaveOrder o ∈ new_events initial_world placed
       /\ order_at (heap placed) o = Some (x, [])
       /\ Order.totalAmount x = 5 + 20
       /\ Order.status x = OrderStatus.PENDING.
Proof.
  assert (H1 : cart_contents (heap initial_world) (cart initial_world) = Some [])
    by reflexivity.
  split; [exact H1|].
  exact (empty_cart_is_ordered customer "pay_1" (obliging 0) initial_world 20 "ORD-1001"
           H1 eq_refl eq_refl).
Defined.

Lemma failed_lookup_changes_nothing_witness :
  cart_contents (heap two_idlis) (cart two_idlis) = Some [CartItem.mk idli 2]
  /\ Store_getDeliveryFee without_fee = Throws
  /\ let run := App.handlePlaceOrder customer "pay_1" without_fee two_idlis in
     fst run = Exn
     /\ heap (snd run) = heap two_idlis /\ cart (snd run) = cart two_idlis
     /\ view (snd run) = view two_idlis
     /\ forall e, e ∈ new_events two_idlis (snd run) ->
                  e = EvGetDeliveryFee \/ e = EvGenerateOrderId.
Proof.
  assert (H2 : cart_contents (heap two_idlis) (cart two_idlis) = Some [CartItem.mk idli 2])
    by reflexivity.
  split; [exact H2|]. split; [reflexivity|].
  exact (failed_lookup_changes_nothing customer "pay_1" without_fee two_idlis
           [CartItem.mk idli 2] H2 (or_introl eq_refl)).
Defined.

Lemma failed_persistence_keeps_the_cart_witness :
  cart_contents (heap two_idlis) (cart two_idlis) = Some [CartItem.mk idli 2]
  /\ Store_saveOrder without_persistence = Throws
  /\ let run := App.handlePlaceOrder customer "pay_1" without_persistence two_idlis in
     fst run = Exn
     /\ cart (snd run) = cart two_idlis /\ view (snd run) = view two_idlis
     /\ cart_contents (heap (snd run)) (cart (snd run)) = Some [CartItem.mk idli 2]
     /\ exists o,
          new_events two_idlis (snd run)
          = [EvGetDeliveryFee; EvGenerateOrderId; EvSaveOrder o]
          \/ new_events two_idlis (snd run)
             = [EvGetDeliveryFee; EvGenerateOrderId; EvSaveOrder o;
                EvSaveLastOrder (cart two_idlis)].
Proof.
  assert (H2 : cart_contents (heap two_idlis) (cart two_idlis) = Some [CartItem.mk idli 2])
    by reflexivity.
  split; [exact H2|]. split; [reflexivity|].
  exact (failed_persistence_keeps_the_cart customer "pay_1" without_persistence two_idlis
           [CartItem.mk idli 2] 20 "ORD-1001" H2 eq_refl eq_refl (or_introl eq_refl)).
Defined.


Lemma counter_always_rests_witness :
  let inputs := [TapCounter.Tap; TapCounter.Wait 500; TapCounter.Tap; TapCounter.Close] in
  Forall TapCounter.valid inputs
  /\ let g := TapCounter.run inputs TapCounter.initial in
     TapCounter.rendered g = TapCounter.logoClickCount g
     /\ 0 <= TapCounter.logoClickCount g <= 4
     /\ (TapCounter.logoClickCount g = 0 <-> TapCounter.timer g = None)
     /\ (forall remaining, TapCounter.timer g = Some remaining -> 0 < remaining <= 2000).
Proof.
  intros inputs.
  assert (Hv : Forall TapCounter.valid inputs).
  { repeat constructor. simpl. lia. }
  split; [exact Hv|]. exact (counter_always_rests inputs Hv).
Defined.

Lemma slow_taps_never_prompt_witness :
  TapCounter.resting TapCounter.initial
  /\ Forall (fun d => 2000 <= d) [2000; 2500; 9000; 2000; 2000; 3000]
  /\ let g' := TapCounter.run (TapCounter.burst [2000; 2500; 9000; 2000; 2000; 3000])
                 TapCounter.initial in
     TapCounter.prompts g' = TapCounter.prompts TapCounter.initial
     /\ TapCounter.showPinModal g' = TapCounter.showPinModal TapCounter.initial
     /\ 0 <= TapCounter.logoClickCount g'
        <= Z.max 1 (TapCounter.logoClickCount TapCounter.initial).
Proof.
  assert (Hg : Forall (fun d => 2000 <= d) [2000; 2500; 9000; 2000; 2000; 3000]).
  { repeat constructor; lia. }
  split; [exact resting_initial|]. split; [exact Hg|].
  exact (slow_taps_never_prompt _ TapCounter.initial resting_initial Hg).
Defined.

Lemma prompt_only_on_fifth_tap_witness :
  TapCounter.resting TapCounter.initial /\ TapCounter.valid TapCounter.Tap
  /\ TapCounter.prompts (TapCounter.step TapCounter.initial TapCounter.Tap)
     = TapCounter.prompts TapCounter.initial
  /\ (TapCounter.showPinModal (TapCounter.step TapCounter.initial TapCounter.Tap) = true ->
      TapCounter.showPinModal TapCounter.initial = true).
Proof.
  split; [exact resting_initial|]. split; [exact I|].
  apply (proj2 (prompt_only_on_fifth_tap TapCounter.initial TapCounter.Tap
                  resting_initial I)).
  intros [_ H]. discriminate H.
Defined.

(** Twelve quick taps: two prompts, and a count of 2. *)
Lemma every_fifth_quick_tap_prompts_witness :
  let gaps := [0; 100; 100; 100; 100; 100; 100; 100; 100; 100; 100; 100] in
  TapCounter.resting TapCounter.initial
  /\ TapCounter.logoClickCount TapCounter.initial = 0
  /\ Forall (fun d => 0 <= d < 2000) gaps
  /\ let g' := TapCounter.run (TapCounter.burst gaps) TapCounter.initial in
     TapCounter.logoClickCount g' = 12 mod 5
     /\ Z.of_nat (TapCounter.prompts g')
        = Z.of_nat (TapCounter.prompts TapCounter.initial) + 12 / 5.
Proof.
  intros gaps.
  assert (Hg : Forall (fun d => 0 <= d < 2000) gaps).
  { repeat constructor; lia. }
  split; [exact resting_initial|]. split; [reflexivity|]. split; [exact Hg|].
  exact (every_fifth_quick_tap_prompts gaps TapCounter.initial resting_initial eq_refl Hg).
Defined.
